(** * wasmd: gas register, IBC port identifiers, port binding and the
      ping-pong relay contract

    A shallow embedding of
      - [x/wasm/keeper/gas_register.go]      (module [gas_register]),
      - [x/wasm/internal/keeper/ibc.go]      (modules [binary], [base64], [ibc],
                                              [proposal]),
      - [x/wasm/relay_pingpong_test.go]      (module [relay_pingpong]),
      - the keeper options that set costs    (module [options]),
    followed by the theorems about them.

    Conventions.  A Go [uint64] is a [Z] in [0, 2^64) and every operation that
    can leave that range is followed by [wrap64]; a Go [int] is a [Z] in
    [-2^63, 2^63) with [wrap_int].  A Go [byte] is a [Z] in [0, 256).  A Go
    [string] is a [string] whose characters are its bytes.  A Go call that may
    panic returns an [outcome]; a Go [(T, error)] is a [result]. *)

From Stdlib Require Import ZArith Lia List Bool Ascii String.
From stdpp Require Import base option list gmap strings pretty.

Local Open Scope Z_scope.

(* ===================================================================== *)
(** * Part I: the embedding                                                *)
(* ===================================================================== *)

(** ** Go values shared by every module *)

Module golang.

(** What a Go panic carries, as far as the modelled code distinguishes it. *)
Inductive panic_value : Type :=
| ErrorOutOfGas (Descriptor : string)   (* sdk.ErrorOutOfGas{Descriptor} *)
| IntOverflow                            (* sdk.Int: panic("Int overflow") *)
| DivideByZero                           (* runtime error: integer divide by zero *)
| IndexOutOfRange                        (* runtime error: index out of range *)
| PanicMsg (msg : string)                (* panic(fmt.Sprintf(...)) *)
| TestFatal (msg : string).              (* require.NoError / t.Fatalf *)

(** A call either returns or panics. *)
Inductive outcome (A : Type) : Type :=
| Ret (a : A)
| Panic (p : panic_value).
Arguments Ret {A} a.
Arguments Panic {A} p.

Definition obind {A B} (m : outcome A) (k : A -> outcome B) : outcome B :=
  match m with
  | Ret a => k a
  | Panic p => Panic p
  end.

(** Errors returned through Go's [error] interface. *)
Inductive error : Type :=
| ErrInvalid                              (* types.ErrInvalid *)
| CorruptInputError (offset : Z)          (* base64.CorruptInputError *)
| ErrCapability (msg : string)            (* errors of the capability keeper *)
| ErrJSON (msg : string)                  (* errors of encoding/json *)
| Wrapf (cause : error) (msg : string).   (* sdkerrors.Wrapf(cause, msg) *)

(** A Go [(T, error)] whose value is only meaningful when the error is nil. *)
Inductive result (A : Type) : Type :=
| Ok (a : A)
| Err (e : error).
Arguments Ok {A} a.
Arguments Err {A} e.

Definition uint64_ok (z : Z) : Prop := 0 <= z < 2 ^ 64.
Definition int_ok (z : Z) : Prop := - 2 ^ 63 <= z < 2 ^ 63.
Definition byte_ok (z : Z) : Prop := 0 <= z < 256.

(** Arithmetic on [uint64] wraps modulo 2^64. *)
Definition wrap64 (z : Z) : Z := z mod 2 ^ 64.

(** Arithmetic on [int] (64 bits, two's complement) wraps into
    [-2^63, 2^63). *)
Definition wrap_int (z : Z) : Z := (z + 2 ^ 63) mod 2 ^ 64 - 2 ^ 63.

(** The conversion [uint64(x)] of an [int]. *)
Definition uint64_of_int (z : Z) : Z := z mod 2 ^ 64.

(** The conversion [byte(x)] of an unsigned integer. *)
Definition byte_of (z : Z) : Z := Z.land z 255.

(** [len(s)] of a string or a slice, as an [int]. *)
Definition len_string (s : string) : Z := Z.of_nat (String.length s).
Definition len_slice {A} (l : list A) : Z := Z.of_nat (List.length l).

End golang.

(** ** [x/wasm/keeper/gas_register.go] *)

Module gas_register.
Import golang.

Definition DefaultGasMultiplier : Z := 100.
Definition DefaultInstanceCost : Z := 40000.
Definition DefaultCompileCost : Z := 2.
Definition DefaultEventAttributeDataCost : Z := 1.
Definition DefaultPerAttributeCost : Z := 10.
Definition DefaultEventAttributeDataFreeTier : Z := 100.

(** [sdk.Gas] and [storetypes.Gas] are [uint64]; the free tier is an
    [int]. *)
Record GasRegister : Type := NewGasRegister {
  instanceCost : Z;
  compileCost : Z;
  gasMultiplier : Z;
  eventPerAttributeCost : Z;
  eventAttributeDataCost : Z;
  eventAttributeDataFreeTier : Z
}.

(** The field types of the Go struct. *)
Record GasRegister_ok (g : GasRegister) : Prop := {
  instanceCost_ok : uint64_ok (instanceCost g);
  compileCost_ok : uint64_ok (compileCost g);
  gasMultiplier_ok : uint64_ok (gasMultiplier g);
  eventPerAttributeCost_ok : uint64_ok (eventPerAttributeCost g);
  eventAttributeDataCost_ok : uint64_ok (eventAttributeDataCost g);
  eventAttributeDataFreeTier_ok : int_ok (eventAttributeDataFreeTier g)
}.

Definition DefaultGasRegister : GasRegister :=
  {| instanceCost := DefaultInstanceCost;
     compileCost := DefaultCompileCost;
     gasMultiplier := DefaultGasMultiplier;
     eventPerAttributeCost := DefaultPerAttributeCost;
     eventAttributeDataCost := DefaultEventAttributeDataCost;
     eventAttributeDataFreeTier := DefaultEventAttributeDataFreeTier |}.

(** [wasmvmtypes.EventAttribute]. *)
Record EventAttribute : Type := {
  Key : string;
  Value : string
}.

(** *** [sdk.Int]: a big integer whose operations panic past 255 bits. *)

Definition maxBitLen : Z := 255.

(** [big.Int.BitLen]: the length of the absolute value in bits, 0 for 0. *)
Definition BitLen (z : Z) : Z :=
  if z =? 0 then 0 else Z.log2 (Z.abs z) + 1.

Definition NewIntFromUint64 (n : Z) : Z := n.

Definition Int_Mul (i i2 : Z) : outcome Z :=
  if maxBitLen <? BitLen i + BitLen i2 - 1 then Panic IntOverflow
  else
    let res := i * i2 in
    if maxBitLen <? BitLen res then Panic IntOverflow else Ret res.

Definition Int_Add (i i2 : Z) : outcome Z :=
  let res := i + i2 in
  if maxBitLen <? BitLen res then Panic IntOverflow else Ret res.

(** [Int.IsUint64]: [big.Int.IsUint64], non-negative and below 2^64. *)
Definition Int_IsUint64 (i : Z) : bool := (0 <=? i) && (i <? 2 ^ 64).

(** *** The cost functions *)

Definition InstantiateContractCost (g : GasRegister) (pinned : bool) (msgLen : Z) : Z :=
  if pinned then 0 else instanceCost g.

Definition NewContractInstanceCost (g : GasRegister) (pinned : bool)
    (msgLen labelLength : Z) : Z :=
  InstantiateContractCost g pinned msgLen.

Definition CompileCost (g : GasRegister) (byteLength sourceCodeUrlLen builderLen : Z) : Z :=
  wrap64 (compileCost g * uint64_of_int byteLength).

(** The loop [for _, l := range evts { storedBytes += len(l.Key) + len(l.Value) }]
    over an [int] accumulator. *)
Definition sumStoredBytes (evts : list EventAttribute) : Z :=
  fold_left
    (fun storedBytes l =>
       wrap_int (storedBytes + wrap_int (len_string (Key l) + len_string (Value l))))
    evts 0.

(** The byte length of all keys and values, as a mathematical integer: the
    quantity the loop above computes when it does not leave the range of
    [int]. *)
Definition attributeBytes (evts : list EventAttribute) : Z :=
  fold_right (fun l acc => len_string (Key l) + len_string (Value l) + acc) 0 evts.

(** A slice that a Go program can hold: its length and the byte length of
    its strings are values of type [int]. *)
Definition slice_fits (evts : list EventAttribute) : Prop :=
  len_slice evts < 2 ^ 63 /\ attributeBytes evts < 2 ^ 63.

(** The specification's billable bytes [max(0, bytes - freeTierBytes)] and
    its cost formula, over mathematical integers. *)
Definition billableBytes (g : GasRegister) (evts : list EventAttribute) : Z :=
  Z.max 0 (attributeBytes evts - eventAttributeDataFreeTier g).

Definition exactEventCost (g : GasRegister) (evts : list EventAttribute) : Z :=
  billableBytes g evts * eventAttributeDataCost g
  + len_slice evts * eventPerAttributeCost g.

(** The free tier: lines 105-110. *)
Definition applyFreeTier (g : GasRegister) (storedBytes : Z) : Z :=
  if storedBytes <=? eventAttributeDataFreeTier g then 0
  else wrap_int (storedBytes - eventAttributeDataFreeTier g).

Definition EventCosts (g : GasRegister) (evts : list EventAttribute) : outcome Z :=
  if len_slice evts =? 0 then Ret 0
  else
    let storedBytes := sumStoredBytes evts in
    let storedBytes := applyFreeTier g storedBytes in
    obind (Int_Mul (NewIntFromUint64 (eventAttributeDataCost g))
                   (NewIntFromUint64 (uint64_of_int storedBytes))) (fun dataCost =>
    obind (Int_Mul (NewIntFromUint64 (eventPerAttributeCost g))
                   (NewIntFromUint64 (uint64_of_int (len_slice evts)))) (fun countCost =>
    obind (Int_Add dataCost countCost) (fun r =>
    if negb (Int_IsUint64 r) then Panic (ErrorOutOfGas "overflow")
    else Ret r))).

(** [ToWasmVMGas]: a [uint64] multiplication. *)
Definition ToWasmVMGas (g : GasRegister) (source : Z) : Z :=
  wrap64 (source * gasMultiplier g).

(** [FromWasmVMGas]: a [uint64] division, which panics on a zero divisor. *)
Definition FromWasmVMGas (g : GasRegister) (source : Z) : outcome Z :=
  if gasMultiplier g =? 0 then Panic DivideByZero
  else Ret (source / gasMultiplier g).

(** *** [ReplyCost] *)

(** [wasmvmtypes.Event], [SubcallResponse], [SubcallResult] and [Reply]: the
    fields [ReplyCost] reads.  [ResultOk] is a pointer and may be nil. *)
Record Event : Type := {
  EventType : string;
  Attributes : list EventAttribute
}.

Record SubcallResponse : Type := {
  Events : list Event;
  ResponseData : list Z
}.

Record SubcallResult : Type := {
  ResultOk : option SubcallResponse;
  ResultErr : string
}.

Record Reply : Type := {
  ReplyID : Z;
  Result : SubcallResult
}.

(** One turn of the loop over the events: [msgLen += len(e.Type)] and
    [eventGas += g.EventCosts(e.Attributes)], on a [uint64] accumulator. *)
Definition replyEvent (g : GasRegister) (acc : Z * Z) (e : Event) : outcome (Z * Z) :=
  let '(msgLen, eventGas) := acc in
  obind (EventCosts g (Attributes e)) (fun c =>
  Ret (wrap_int (msgLen + len_string (EventType e)), wrap64 (eventGas + c))).

Fixpoint replyEvents (g : GasRegister) (events : list Event) (acc : Z * Z)
    : outcome (Z * Z) :=
  match events with
  | [] => Ret acc
  | e :: events' => obind (replyEvent g acc e) (replyEvents g events')
  end.

Definition ReplyCost (g : GasRegister) (pinned : bool) (reply : Reply) : outcome Z :=
  let msgLen := len_string (ResultErr (Result reply)) in
  obind (match ResultOk (Result reply) with
         | Some ok =>
             replyEvents g (Events ok) (wrap_int (msgLen + len_slice (ResponseData ok)), 0)
         | None => Ret (msgLen, 0)
         end) (fun '(msgLen, eventGas) =>
  Ret (wrap64 (eventGas + InstantiateContractCost g pinned msgLen))).

(** *** Registers used as concrete inputs below *)

(** A register whose per-byte cost is 2^62 and which has no free tier: one
    attribute of four bytes costs 2^64 + 10. *)
Definition byteCostlyRegister : GasRegister :=
  NewGasRegister 40000 2 100 10 (2 ^ 62) 0.

(** A register that charges 2^63 per attribute: two attributes without any
    bytes are inside every free tier, and [count * eventAttrCountCost] is
    2^64. *)
Definition countCostlyRegister : GasRegister :=
  NewGasRegister 40000 2 100 (2 ^ 63) 1 100.

(** A successful reply with one event of one attribute, and one whose
    event has two attributes that [countCostlyRegister] cannot price. *)
Definition transferReply : Reply :=
  {| ReplyID := 1;
     Result :=
       {| ResultOk :=
            Some {| Events := [{| EventType := "transfer";
                                  Attributes := [{| Key := "action"; Value := "transfer" |}] |}];
                    ResponseData := [] |};
          ResultErr := "" |} |}.

Definition twoAttributeReply : Reply :=
  {| ReplyID := 2;
     Result :=
       {| ResultOk :=
            Some {| Events := [{| EventType := "wasm";
                                  Attributes := [{| Key := ""; Value := "" |};
                                                 {| Key := ""; Value := "" |}] |}];
                    ResponseData := [] |};
          ResultErr := "" |} |}.

End gas_register.

(** ** [encoding/binary]: unsigned varints *)

Module binary.
Import golang.

Definition MaxVarintLen64 : Z := 10.

(** [PutUvarint(buf, x)]:
    [for x >= 0x80 { buf[i] = byte(x) | 0x80; x >>= 7; i++ }; buf[i] = byte(x)].
    The result is [buf[0:i+1]], the bytes written.  [n] bounds the number of
    turns of the loop; see [PutUvarint]. *)
Fixpoint PutUvarint_loop (n : nat) (x : Z) : list Z :=
  match n with
  | O => [byte_of x]
  | S n' =>
      if 128 <=? x then Z.lor (byte_of x) 128 :: PutUvarint_loop n' (Z.shiftr x 7)
      else [byte_of x]
  end.

(** [x] is a [uint64]: after nine shifts by 7 it is below 2, so the loop
    turns at most nine times (lemma [PutUvarint_loop_enough]) and the ten
    bytes of [buf] suffice. *)
Definition PutUvarint (x : Z) : list Z := PutUvarint_loop 9 x.

(** [Uvarint(buf)] of Go 1.15 and later: the value and the number of bytes
    read; [(0, 0)] when [buf] ends early, [(0, -n)] on a 64-bit overflow.
    [i] is the index of the head of [buf], [x] and [s] are the loop's
    variables. *)
Fixpoint Uvarint_loop (buf : list Z) (i x s : Z) : Z * Z :=
  match buf with
  | [] => (0, 0)
  | b :: buf' =>
      if i =? MaxVarintLen64 then (0, - (i + 1))
      else if b <? 128 then
        if (i =? MaxVarintLen64 - 1) && (1 <? b) then (0, - (i + 1))
        else (Z.lor x (wrap64 (Z.shiftl b s)), i + 1)
      else
        Uvarint_loop buf' (i + 1) (Z.lor x (wrap64 (Z.shiftl (Z.land b 127) s))) (s + 7)
  end.

Definition Uvarint (buf : list Z) : Z * Z := Uvarint_loop buf 0 0 0.

End binary.

(** ** [encoding/base64]: [StdEncoding.WithPadding(NoPadding)] *)

Module base64.
Import golang.

Definition encodeStd : string :=
  "ABCDEFGHIJKLMNOPQRSTUVWXYZabcdefghijklmnopqrstuvwxyz0123456789+/".

(** [enc.encode[i]]. *)
Definition encode (i : Z) : ascii :=
  nth (Z.to_nat i) (list_ascii_of_string encodeStd) "A"%char.

(** [enc.decodeMap[c]]: the index of [c] in the alphabet, 0xFF for a
    character outside it. *)
Fixpoint index_from (c : ascii) (alphabet : list ascii) (i : Z) : Z :=
  match alphabet with
  | [] => 255
  | a :: alphabet' => if Ascii.eqb a c then i else index_from c alphabet' (i + 1)
  end.

Definition decodeMap (c : ascii) : Z :=
  index_from c (list_ascii_of_string encodeStd) 0.

(** [Encode]: three bytes become four characters; a last block of one or
    two bytes becomes two or three characters, without padding. *)
Fixpoint Encode (src : list Z) : list ascii :=
  match src with
  | [] => []
  | [b0] =>
      let val := Z.shiftl b0 16 in
      [encode (Z.land (Z.shiftr val 18) 63); encode (Z.land (Z.shiftr val 12) 63)]
  | [b0; b1] =>
      let val := Z.lor (Z.shiftl b0 16) (Z.shiftl b1 8) in
      [encode (Z.land (Z.shiftr val 18) 63); encode (Z.land (Z.shiftr val 12) 63);
       encode (Z.land (Z.shiftr val 6) 63)]
  | b0 :: b1 :: b2 :: src' =>
      let val := Z.lor (Z.lor (Z.shiftl b0 16) (Z.shiftl b1 8)) b2 in
      encode (Z.land (Z.shiftr val 18) 63) :: encode (Z.land (Z.shiftr val 12) 63)
      :: encode (Z.land (Z.shiftr val 6) 63) :: encode (Z.land val 63) :: Encode src'
  end.

Definition EncodeToString (src : list Z) : string :=
  string_of_list_ascii (Encode src).

(** The end of [decodeQuantum]: [dlen] six-bit values ([dlen] = 2, 3 or 4)
    become [dlen - 1] bytes; the encoding is not strict, so left-over bits
    are dropped. *)
Definition assemble (dbuf : list Z) : list Z :=
  let d := fun k => nth k dbuf 0 in
  let val :=
    Z.lor (Z.lor (Z.lor (Z.shiftl (d 0%nat) 18) (Z.shiftl (d 1%nat) 12))
                 (Z.shiftl (d 2%nat) 6)) (d 3%nat) in
  firstn (List.length dbuf - 1)
    [byte_of (Z.shiftr val 16); byte_of (Z.shiftr val 8); byte_of val].

Definition is_newline (c : ascii) : bool :=
  Ascii.eqb c "010"%char || Ascii.eqb c "013"%char.

(** [Decode]: characters of the alphabet are collected four at a time in
    [dbuf]; "\n" and "\r" are skipped; any other character is a
    [CorruptInputError] at its offset [si]; at the end one left-over
    character is an error and two or three give one or two bytes. *)
Fixpoint Decode (src : list ascii) (si : Z) (dbuf : list Z) : result (list Z) :=
  match src with
  | [] =>
      match dbuf with
      | [] => Ok []
      | [_] => Err (CorruptInputError (si - 1))
      | _ => Ok (assemble dbuf)
      end
  | c :: src' =>
      let out := decodeMap c in
      if negb (out =? 255) then
        let dbuf' := dbuf ++ [out] in
        if (List.length dbuf' =? 4)%nat then
          match Decode src' (si + 1) [] with
          | Ok rest => Ok (assemble dbuf' ++ rest)
          | Err e => Err e
          end
        else Decode src' (si + 1) dbuf'
      else if is_newline c then Decode src' (si + 1) dbuf
      else Err (CorruptInputError si)
  end.

Definition DecodeString (s : string) : result (list Z) :=
  Decode (list_ascii_of_string s) 0 [].

End base64.

(** ** [x/wasm/internal/keeper/ibc.go]: port identifiers *)

Module ibc.
Import golang.

Definition portIDPrefix : string := "wasm".

(** [s[n:]]. *)
Fixpoint string_from (n : nat) (s : string) : string :=
  match n, s with
  | O, _ => s
  | S n', String _ s' => string_from n' s'
  | S _, EmptyString => EmptyString
  end.

Definition PortIDForContract (codeID instanceID : Z) : string :=
  let contractID := wrap64 (wrap64 (Z.shiftl codeID 32) + instanceID) in
  let data := binary.PutUvarint contractID in
  (portIDPrefix ++ base64.EncodeToString data)%string.

(** [contractAddress], which builds the account address of a contract from
    its two identifiers, is declared in another file of the keeper; it is a
    parameter here.  An [sdk.AccAddress] is a byte slice. *)
Definition ContractFromPortID (contractAddress : Z -> Z -> list Z) (portID : string)
    : result (list Z) :=
  if negb (String.prefix portIDPrefix portID) then
    Err (Wrapf ErrInvalid "without prefix")
  else
    match base64.DecodeString (string_from (String.length portIDPrefix) portID) with
    | Err err => Err (Wrapf err "decoding payload data")
    | Ok data =>
        let '(contractID, n) := binary.Uvarint data in
        if (n =? 0) && (n <=? 0) then Err (Wrapf ErrInvalid "decoding contract id")
        else
          let codeID := Z.shiftr contractID 32 in
          let instanceID := Z.land contractID 4294967295 in
          Ok (contractAddress codeID instanceID)
    end.

(** *** Binding the port of a contract *)

(** [host.PortPath(portID)], the name under which the capability of a port
    is kept. *)
Definition PortPath (portID : string) : string := ("ports/" ++ portID)%string.

(** The calls a keeper makes to the capability authority; the context
    records them, in order, next to the authority's state. *)
Inductive AuthorityCall : Type :=
| CallGetCapability (name : string)
| CallBindPort (portID : string)
| CallClaimCapability (name : string).

Section Keeper.
(** [St] is the state of the capability authority that an [sdk.Context]
    gives access to, [Cap] the type of [*capabilitytypes.Capability]. *)
Context {St Cap : Type}.

Record sdkContext : Type := {
  authority : St;
  calls : list AuthorityCall
}.

(** [types.PortKeeper]: [BindPort] hands out the capability of a fresh
    port and panics when it cannot. *)
Record PortKeeper : Type := {
  BindPort : St -> string -> outcome (Cap * St)
}.

(** [capabilitykeeper.ScopedKeeper]: [GetCapability] looks a capability up
    by name among those this module holds; [ClaimCapability] records the
    module as an owner under a name, or returns an error.  A name claimed
    with success is held from then on. *)
Record ScopedKeeper : Type := {
  GetCapability : St -> string -> option Cap;
  ClaimCapability : St -> Cap -> string -> result St;
  claimed_is_held : forall st cap name st',
    ClaimCapability st cap name = Ok st' -> is_Some (GetCapability st' name)
}.

(** The two fields of [Keeper] that [ibc.go] uses; [portKeeper] is an
    interface value and may be nil. *)
Record Keeper : Type := {
  portKeeper : option PortKeeper;
  scopedKeeper : ScopedKeeper
}.

Definition logged (ctx : sdkContext) (c : AuthorityCall) (st : St) : sdkContext :=
  {| authority := st; calls := calls ctx ++ [c] |}.

(** [Keeper.ClaimCapability]: the error, nil on success. *)
Definition Keeper_ClaimCapability (k : Keeper) (ctx : sdkContext) (cap : Cap)
    (name : string) : option error * sdkContext :=
  match ClaimCapability (scopedKeeper k) (authority ctx) cap name with
  | Ok st' => (None, logged ctx (CallClaimCapability name) st')
  | Err e => (Some e, logged ctx (CallClaimCapability name) (authority ctx))
  end.

Definition bindIbcPort (k : Keeper) (ctx : sdkContext) (portID : string)
    : outcome (option error * sdkContext) :=
  match portKeeper k with
  | None => Ret (None, ctx)
  | Some pk =>
      match BindPort pk (authority ctx) portID with
      | Panic p => Panic p
      | Ret (cap, st') =>
          Ret (Keeper_ClaimCapability k (logged ctx (CallBindPort portID) st') cap
                 (PortPath portID))
      end
  end.

(** The port identifier and the error, nil on success. *)
Definition ensureIbcPort (k : Keeper) (ctx : sdkContext) (codeID instanceID : Z)
    : outcome ((string * option error) * sdkContext) :=
  match portKeeper k with
  | None => Ret ((PortIDForContract codeID instanceID, None), ctx)
  | Some _ =>
      let portID := PortIDForContract codeID instanceID in
      let ctx' := logged ctx (CallGetCapability (PortPath portID)) (authority ctx) in
      match GetCapability (scopedKeeper k) (authority ctx) (PortPath portID) with
      | Some _ => Ret ((portID, None), ctx')
      | None =>
          match bindIbcPort k ctx' portID with
          | Panic p => Panic p
          | Ret (err, ctx'') => Ret ((portID, err), ctx'')
          end
      end
  end.

End Keeper.

Arguments sdkContext : clear implicits.
Arguments PortKeeper : clear implicits.
Arguments ScopedKeeper : clear implicits.
Arguments Keeper : clear implicits.

(** *** A capability authority to run the keeper against

    The state lists the ports that are bound and the capabilities this
    module holds by name; a capability is a number.  [BindPort] panics on a
    port that is bound, as the port keeper of the IBC module does. *)

Record TableState : Type := {
  boundPorts : list string;
  held : list (string * nat)
}.

Fixpoint lookup_held (name : string) (l : list (string * nat)) : option nat :=
  match l with
  | [] => None
  | (n, cap) :: l' => if String.eqb n name then Some cap else lookup_held name l'
  end.

Definition table_BindPort (st : TableState) (portID : string)
    : outcome (nat * TableState) :=
  if existsb (String.eqb portID) (boundPorts st) then
    Panic (PanicMsg "port is already bound")
  else
    Ret (List.length (boundPorts st),
         {| boundPorts := portID :: boundPorts st; held := held st |}).

Definition table_ClaimCapability (st : TableState) (cap : nat) (name : string)
    : result TableState :=
  match lookup_held name (held st) with
  | Some _ => Err (ErrCapability "owner already claimed capability")
  | None => Ok {| boundPorts := boundPorts st; held := (name, cap) :: held st |}
  end.

Lemma table_claimed_is_held st cap name st' :
  table_ClaimCapability st cap name = Ok st' ->
  is_Some (lookup_held name (held st')).
Proof.
  unfold table_ClaimCapability. destruct (lookup_held name (held st)); [discriminate|].
  intros [= <-]. simpl. rewrite String.eqb_refl. eexists. reflexivity.
Qed.

Definition tableScopedKeeper : ScopedKeeper TableState nat :=
  {| GetCapability := fun st name => lookup_held name (held st);
     ClaimCapability := table_ClaimCapability;
     claimed_is_held := table_claimed_is_held |}.

Definition tableKeeper : Keeper TableState nat :=
  {| portKeeper := Some {| BindPort := table_BindPort |};
     scopedKeeper := tableScopedKeeper |}.

Definition emptyContext : sdkContext TableState :=
  {| authority := {| boundPorts := []; held := [] |}; calls := [] |}.

End ibc.

(** ** [x/wasm/relay_pingpong_test.go]: the ping-pong contract *)

Module relay_pingpong.
Import golang.

Definition ping : string := "ping".
Definition pong : string := "pong".
Definition doNotTimeout : Z := 110000.

(** [type hit map[string]uint64], the payload of a packet. *)
Abbreviation hit := (gmap string Z).

Definition NewHit (player : string) (count : Z) : hit := {[ player := count ]}.

(** [hitAcknowledgement]; [Success] is a pointer and may be nil. *)
Record hitAcknowledgement : Type := {
  Error : string;
  Success : option hit
}.

Definition BuildAck (h : hit) : hitAcknowledgement :=
  {| Error := ""; Success := Some h |}.

Definition BuildError (h : hit) (errMsg : string) : hitAcknowledgement :=
  {| Error := errMsg; Success := None |}.

(** The fields of the [cosmwasmv2] types that the contract reads or
    writes. *)
Record IBCEndpoint : Type := { Port : string; Channel : string }.

Record IBCChannel : Type := {
  Endpoint : IBCEndpoint;
  CounterpartyEndpoint : IBCEndpoint;
  Version : string
}.

Record IBCPacket : Type := {
  Data : list Z;
  Source : IBCEndpoint;
  Destination : IBCEndpoint;
  Sequence : Z
}.

Record IBCAcknowledgement : Type := {
  Acknowledgement : list Z;
  OriginalPacket : IBCPacket
}.

Record IBCSendMsg : Type := {
  ChannelID : string;
  SendData : list Z;
  TimeoutHeight : Z
}.

Inductive IBCMsg : Type := SendPacket (m : IBCSendMsg).
Inductive CosmosMsg : Type := MsgIBC (m : IBCMsg).

Record IBCChannelOpenResponse : Type := { OpenSuccess : bool; Reason : string }.
Inductive IBCChannelConnectResponse : Type := ChannelConnected.
Inductive IBCPacketAcknowledgementResponse : Type := PacketAcknowledged.

Record IBCPacketReceiveResponse : Type := {
  ReceiveAcknowledgement : list Z;
  Messages : list CosmosMsg
}.

(** What a callback of the contract returns: the response (a pointer), the
    gas used and the error. *)
Definition returned (A : Type) : Type := (option A * Z * option error)%type.

(** [connectedChannelsModel]. *)
Record connectedChannelsModel : Type := {
  Our : IBCEndpoint;
  Their : IBCEndpoint
}.

(** The contract's [prefix.Store]: byte strings under byte-string keys. *)
Abbreviation Store := (gmap string (list Z)).

Definition ibcEndpointsKey : string := "ibc-endpoints".
Definition maxValueKey : string := "max-value".
Definition lastBallSentKey : string := "lastBallSent".
Definition lastBallReceivedKey : string := "lastBallReceived".
Definition sentBallsCountKey : string := "sentBalls".
Definition receivedBallsCountKey : string := "recvBalls".
Definition confirmedBallsCountKey : string := "confBalls".

(** [err.Error()]. *)
Fixpoint Error_text (e : error) : string :=
  match e with
  | ErrInvalid => "invalid"
  | CorruptInputError offset => "illegal base64 data at input byte " +:+ pretty offset
  | ErrCapability msg => msg
  | ErrJSON msg => msg
  | Wrapf cause msg => msg +:+ ": " +:+ Error_text cause
  end.

(** [encoding/json] on the three types the contract serialises.  Marshal
    does not fail on them; Unmarshal returns the value or an error.  A
    marshalled slice of endpoints is read back as it was written. *)
Class JSON : Type := {
  Marshal_hit : hit -> list Z;
  Unmarshal_hit : list Z -> result hit;
  Marshal_ack : hitAcknowledgement -> list Z;
  Unmarshal_ack : list Z -> result hitAcknowledgement;
  Marshal_endpoints : list connectedChannelsModel -> list Z;
  Unmarshal_endpoints : list Z -> result (list connectedChannelsModel);
  Unmarshal_Marshal_endpoints : forall l,
    Unmarshal_endpoints (Marshal_endpoints l) = Ok l
}.

(** [sdk.Uint64ToBigEndian]. *)
Definition Uint64ToBigEndian (i : Z) : list Z :=
  [byte_of (Z.shiftr i 56); byte_of (Z.shiftr i 48); byte_of (Z.shiftr i 40);
   byte_of (Z.shiftr i 32); byte_of (Z.shiftr i 24); byte_of (Z.shiftr i 16);
   byte_of (Z.shiftr i 8); byte_of i].

(** [sdk.BigEndianToUint64]: 0 for an empty slice, else
    [binary.BigEndian.Uint64], which reads eight bytes and panics on a
    shorter slice. *)
Definition BigEndianToUint64 (bz : list Z) : outcome Z :=
  match bz with
  | [] => Ret 0
  | b0 :: b1 :: b2 :: b3 :: b4 :: b5 :: b6 :: b7 :: _ =>
      Ret (Z.lor (Z.lor (Z.lor (Z.lor (Z.lor (Z.lor (Z.lor
             b7 (Z.shiftl b6 8)) (Z.shiftl b5 16)) (Z.shiftl b4 24)) (Z.shiftl b3 32))
             (Z.shiftl b2 40)) (Z.shiftl b1 48)) (Z.shiftl b0 56))
  | _ => Panic IndexOutOfRange
  end.

(** The receiver of the methods; the testing handle only logs, and the
    chain is used by [Execute] alone. *)
Record player : Type := {
  actor : string;
  execCalls : Z
}.

(** [Quote] is [strconv.Quote], which the verb [%q] of [fmt.Sprintf]
    applies to a string; it is a parameter of the functions that format
    with [%q]. *)
Definition counterParty (Quote : string -> string) (s : string) : outcome string :=
  if String.eqb s ping then Ret pong
  else if String.eqb s pong then Ret ping
  else Panic (PanicMsg ("unsupported: " +:+ Quote s)).

(** The first lines of [incrementCounter]: the count under [key], 0 when
    nothing is stored. *)
Definition readCounter (store : Store) (key : string) : outcome Z :=
  match store !! key with
  | Some bz => BigEndianToUint64 bz
  | None => Ret 0
  end.

Definition incrementCounter (key : string) (store : Store) : outcome (Z * Store) :=
  obind (readCounter store key) (fun count =>
  let count := wrap64 (count + 1) in
  Ret (count, <[key := Uint64ToBigEndian count]> store)).

(** [QueryState]: exactly one model must be stored under the key. *)
Definition QueryState (store : Store) (key : string) : outcome Z :=
  match store !! key with
  | Some bz => BigEndianToUint64 bz
  | None => Panic (TestFatal "should have 1 item(s)")
  end.

(** A value stored under a counter key is one that [Uint64ToBigEndian]
    wrote: the contract writes these keys in no other way. *)
Definition uint64_slot (store : Store) (key : string) : Prop :=
  forall bz, store !! key = Some bz ->
    exists v, uint64_ok v /\ bz = Uint64ToBigEndian v.

(** The count a counter key stands for, read off the store: [n] when the
    eight big-endian bytes of [n] are stored under the key, and 0 when
    nothing is stored under it. *)
Definition counter_at (store : Store) (key : string) (n : Z) : Prop :=
  uint64_ok n /\
  (store !! key = Some (Uint64ToBigEndian n) \/ (store !! key = None /\ n = 0)).

(** The keys [OnIBCPacketReceive] reads as numbers. *)
Definition receive_slots (store : Store) : Prop :=
  uint64_slot store receivedBallsCountKey /\
  uint64_slot store lastBallSentKey /\
  uint64_slot store sentBallsCountKey /\
  uint64_slot store maxValueKey.

(** The pairs recorded for a local channel. *)
Definition pairsOfChannel (channelID : string) (l : list connectedChannelsModel)
    : list connectedChannelsModel :=
  List.filter (fun v => String.eqb (Channel (Our v)) channelID) l.

Section Contract.
Context `{JSON}.
Context (Quote : string -> string).

(** The slice both [loadEndpoints] and [storeEndpoint] start from: what
    is recorded under [ibcEndpointsKey]; [require.NoError] stops the test
    on a value that is not JSON. *)
Definition loadCounterparties (store : Store) : outcome (list connectedChannelsModel) :=
  match store !! ibcEndpointsKey with
  | Some bz =>
      match Unmarshal_endpoints bz with
      | Ok counterparties => Ret counterparties
      | Err e => Panic (TestFatal (Error_text e))
      end
  | None => Ret []
  end.

Definition loadEndpoints (store : Store) (channelID : string)
    : outcome connectedChannelsModel :=
  obind (loadCounterparties store) (fun counterparties =>
  match List.find (fun v => String.eqb (Channel (Our v)) channelID) counterparties with
  | Some v => Ret v
  | None => Panic (TestFatal ("no counterparty found for channel " +:+ Quote channelID))
  end).

Definition storeEndpoint (store : Store) (channel : IBCChannel) : outcome Store :=
  obind (loadCounterparties store) (fun counterparties =>
  let counterparties :=
    counterparties ++ [{| Our := Endpoint channel; Their := CounterpartyEndpoint channel |}] in
  let bz := Marshal_endpoints counterparties in
  Ret (<[ibcEndpointsKey := bz]> store)).

Definition OnIBCChannelOpen (p : player) (channel : IBCChannel)
    : returned IBCChannelOpenResponse :=
  if negb (String.eqb (Version channel) (actor p)) then
    (Some {| OpenSuccess := false;
             Reason := "expected " +:+ Quote (actor p) +:+ " but got "
                       +:+ Quote (Version channel) |},
     0, None)
  else (Some {| OpenSuccess := true; Reason := "" |}, 0, None).

Definition OnIBCChannelConnect (p : player) (channel : IBCChannel) (store : Store)
    : outcome (returned IBCChannelConnectResponse * Store) :=
  obind (storeEndpoint store channel) (fun store =>
  Ret ((Some ChannelConnected, 0, None), store)).

(** [maxVal != nil && otherCount > BigEndianToUint64(maxVal)]: the limit
    when it is configured and exceeded. *)
Definition exceededLimit (store : Store) (otherCount : Z) : outcome (option Z) :=
  match store !! maxValueKey with
  | Some maxVal =>
      obind (BigEndianToUint64 maxVal) (fun m =>
      Ret (if m <? otherCount then Some m else None))
  | None => Ret None
  end.

Definition OnIBCPacketReceive (p : player) (packet : IBCPacket) (store : Store)
    : outcome (returned IBCPacketReceiveResponse * Store) :=
  match Unmarshal_hit (Data packet) with
  | Err err =>
      Ret ((Some {| ReceiveAcknowledgement :=
                      Marshal_ack {| Error := Error_text err; Success := None |};
                    Messages := [] |}, 0, None), store)
  | Ok receivedBall =>
      obind (incrementCounter receivedBallsCountKey store) (fun '(_, store) =>
      obind (counterParty Quote (actor p)) (fun other =>
      let otherCount := default 0 (receivedBall !! other) in
      let store := <[lastBallReceivedKey := Uint64ToBigEndian otherCount]> store in
      obind (exceededLimit store otherCount) (fun exceeded =>
      match exceeded with
      | Some m =>
          let errMsg :=
            "max value exceeded: " +:+ pretty m +:+ " got " +:+ pretty otherCount in
          Ret ((Some {| ReceiveAcknowledgement :=
                          Marshal_ack (BuildError receivedBall errMsg);
                        Messages := [] |}, 0, None), store)
      | None =>
          obind (incrementCounter lastBallSentKey store) (fun '(nextValue, store) =>
          let newHit := NewHit (actor p) nextValue in
          let respHit :=
            SendPacket {| ChannelID := Channel (Source packet);
                          SendData := Marshal_hit newHit;
                          TimeoutHeight := doNotTimeout |} in
          obind (incrementCounter sentBallsCountKey store) (fun '(_, store) =>
          Ret ((Some {| ReceiveAcknowledgement := Marshal_ack (BuildAck receivedBall);
                        Messages := [MsgIBC respHit] |}, 0, None), store)))
      end)))
  end.

(** Both branches on [ack.Success] only log. *)
Definition OnIBCPacketAcknowledgement (p : player) (packetAck : IBCAcknowledgement)
    (store : Store) : outcome (returned IBCPacketAcknowledgementResponse * Store) :=
  match Unmarshal_hit (Data (OriginalPacket packetAck)) with
  | Err err => Ret ((None, 0, Some err), store)
  | Ok sentBall =>
      match Unmarshal_ack (Acknowledgement packetAck) with
      | Err err => Ret ((None, 0, Some err), store)
      | Ok ack =>
          let logLine :=
            match Success ack with
            | Some _ => "acknowledged " +:+ pretty (default 0 (sentBall !! actor p))
            | None => "received app layer error: " +:+ Error ack
            end in
          obind (incrementCounter confirmedBallsCountKey store) (fun '(_, store) =>
          Ret ((Some PacketAcknowledged, 0, None), store))
      end
  end.

End Contract.

(** [n] calls of [incrementCounter] on one key, each on the store the
    previous one left. *)
Fixpoint incrementTimes (n : nat) (key : string) (store : Store) : outcome Store :=
  match n with
  | O => Ret store
  | S n' =>
      obind (incrementCounter key store) (fun '(_, store') =>
      incrementTimes n' key store')
  end.

(** *** A codec to run the contract against

    [encoding/json] itself is not modelled.  This codec stands in for it on
    concrete inputs: a string is its length followed by its bytes, a hit is
    a sequence of (player, count) pairs with player 0 for "ping" and 1 for
    "pong", an acknowledgement is its error string followed by 0 or by 1
    and the hit. *)

Definition wire_string (s : string) : list Z :=
  let l := list_ascii_of_string s in
  Z.of_nat (List.length l) :: map (fun c => Z.of_N (N_of_ascii c)) l.

Definition unwire_string (bz : list Z) : option (string * list Z) :=
  match bz with
  | [] => None
  | n :: rest =>
      if (0 <=? n) && (Z.to_nat n <=? List.length rest)%nat then
        Some (string_of_list_ascii
                (map (fun z => ascii_of_N (Z.to_N z)) (firstn (Z.to_nat n) rest)),
              skipn (Z.to_nat n) rest)
      else None
  end.

Definition wire_model (m : connectedChannelsModel) : list Z :=
  wire_string (Port (Our m)) ++ wire_string (Channel (Our m))
  ++ wire_string (Port (Their m)) ++ wire_string (Channel (Their m)).

Definition unwire_model (bz : list Z) : option (connectedChannelsModel * list Z) :=
  match unwire_string bz with
  | None => None
  | Some (ourPort, bz1) =>
      match unwire_string bz1 with
      | None => None
      | Some (ourChannel, bz2) =>
          match unwire_string bz2 with
          | None => None
          | Some (theirPort, bz3) =>
              match unwire_string bz3 with
              | None => None
              | Some (theirChannel, bz4) =>
                  Some ({| Our := {| Port := ourPort; Channel := ourChannel |};
                           Their := {| Port := theirPort; Channel := theirChannel |} |},
                        bz4)
              end
          end
      end
  end.

Definition wire_endpoints (l : list connectedChannelsModel) : list Z :=
  Z.of_nat (List.length l) :: concat (map wire_model l).

Fixpoint unwire_models (n : nat) (bz : list Z) : result (list connectedChannelsModel) :=
  match n with
  | O => match bz with
         | [] => Ok []
         | _ => Err (ErrJSON "invalid character after top-level value")
         end
  | S n' =>
      match unwire_model bz with
      | None => Err (ErrJSON "unexpected end of JSON input")
      | Some (m, rest) =>
          match unwire_models n' rest with
          | Ok l => Ok (m :: l)
          | Err e => Err e
          end
      end
  end.

Definition unwire_endpoints (bz : list Z) : result (list connectedChannelsModel) :=
  match bz with
  | [] => Err (ErrJSON "unexpected end of JSON input")
  | n :: rest =>
      if 0 <=? n then unwire_models (Z.to_nat n) rest
      else Err (ErrJSON "invalid character")
  end.

Definition wire_hit (h : hit) : list Z :=
  concat (map (fun kv => [if String.eqb (fst kv) ping then 0 else 1; snd kv])
              (map_to_list h)).

Fixpoint unwire_hit (bz : list Z) : result hit :=
  match bz with
  | [] => Ok ∅
  | k :: v :: rest =>
      match unwire_hit rest with
      | Ok h =>
          if k =? 0 then Ok (<[ping := v]> h)
          else if k =? 1 then Ok (<[pong := v]> h)
          else Err (ErrJSON "invalid character")
      | Err e => Err e
      end
  | _ => Err (ErrJSON "unexpected end of JSON input")
  end.

Definition wire_ack (a : hitAcknowledgement) : list Z :=
  wire_string (Error a) ++
  match Success a with
  | None => [0]
  | Some h => 1 :: wire_hit h
  end.

Definition unwire_ack (bz : list Z) : result hitAcknowledgement :=
  match unwire_string bz with
  | None => Err (ErrJSON "unexpected end of JSON input")
  | Some (e, rest) =>
      match rest with
      | [0] => Ok {| Error := e; Success := None |}
      | 1 :: rest' =>
          match unwire_hit rest' with
          | Ok h => Ok {| Error := e; Success := Some h |}
          | Err err => Err err
          end
      | _ => Err (ErrJSON "invalid character")
      end
  end.

Lemma unwire_wire_string s rest :
  unwire_string (wire_string s ++ rest) = Some (s, rest).
Proof.
  unfold wire_string, unwire_string. cbv zeta. cbn [app].
  set (l := list_ascii_of_string s).
  rewrite Nat2Z.id.
  assert (Hlen : List.length (map (fun c => Z.of_N (N_of_ascii c)) l) = List.length l)
    by apply length_map.
  destruct (Z.leb_spec 0 (Z.of_nat (List.length l))); [|lia].
  rewrite length_app, Hlen.
  destruct (Nat.leb_spec (List.length l)
              (List.length l + List.length rest)); [|lia].
  cbn [andb]. rewrite <- Hlen at 1 2.
  rewrite take_app_length, drop_app_length.
  rewrite map_map.
  rewrite (map_ext _ (fun c => c)), map_id.
  - subst l. rewrite string_of_list_ascii_of_string. reflexivity.
  - intros c. rewrite N2Z.id. apply ascii_N_embedding.
Qed.

Lemma unwire_wire_model m rest :
  unwire_model (wire_model m ++ rest) = Some (m, rest).
Proof.
  unfold unwire_model, wire_model. rewrite <- !app_assoc.
  rewrite !unwire_wire_string. destruct m as [[? ?] [? ?]]. reflexivity.
Qed.

Lemma unwire_wire_models l :
  unwire_models (List.length l) (concat (map wire_model l)) = Ok l.
Proof.
  induction l as [|m l IH]; [reflexivity|].
  cbn [List.length map concat unwire_models].
  rewrite unwire_wire_model, IH. reflexivity.
Qed.

Lemma unwire_wire_endpoints l : unwire_endpoints (wire_endpoints l) = Ok l.
Proof.
  unfold unwire_endpoints, wire_endpoints.
  destruct (Z.leb_spec 0 (Z.of_nat (List.length l))); [|lia].
  rewrite Nat2Z.id. apply unwire_wire_models.
Qed.

(** *** Concrete inputs used below *)

Definition pingPlayer : player := {| actor := ping; execCalls := 0 |}.
Definition pongPlayer : player := {| actor := pong; execCalls := 0 |}.

Definition channel0 : IBCChannel :=
  {| Endpoint := {| Port := "wasmgYCAgBA"; Channel := "channel-0" |};
     CounterpartyEndpoint := {| Port := "wasmgoCAgBA"; Channel := "channel-1" |};
     Version := ping |}.

Definition pair0 : connectedChannelsModel :=
  {| Our := Endpoint channel0; Their := CounterpartyEndpoint channel0 |}.

(** A packet whose payload is [{"ping": 100}] in the wire codec below, and
    its success acknowledgement. *)
Definition pingPacket : IBCPacket :=
  {| Data := [0; 100];
     Source := Endpoint channel0;
     Destination := CounterpartyEndpoint channel0;
     Sequence := 1 |}.

Definition pingAcknowledged : IBCAcknowledgement :=
  {| Acknowledgement := [0; 1; 0; 100]; OriginalPacket := pingPacket |}.

(** The store [pongPlayer] leaves after it has received [pingPacket] on an
    empty store. *)
Definition storeAfterPing : Store :=
  <[sentBallsCountKey := Uint64ToBigEndian 1]>
    (<[lastBallSentKey := Uint64ToBigEndian 1]>
       (<[lastBallReceivedKey := Uint64ToBigEndian 100]>
          (<[receivedBallsCountKey := Uint64ToBigEndian 1]> ∅))).

(** A store whose limit is 50. *)
Definition storeMax50 : Store := <[maxValueKey := Uint64ToBigEndian 50]> ∅.

(** The acknowledgement of [pingPacket] that reports an application
    error: the error string "max" and no hit. *)
Definition pingRefused : IBCAcknowledgement :=
  {| Acknowledgement := [3; 109; 97; 120; 0]; OriginalPacket := pingPacket |}.

(** A store in the middle of a game: four balls received, two sent, the
    last one sent with value 7, three confirmed, and a limit of 200; and
    the same store with a limit of 50. *)
Definition storeMidGame : Store :=
  <[maxValueKey := Uint64ToBigEndian 200]>
    (<[confirmedBallsCountKey := Uint64ToBigEndian 3]>
       (<[sentBallsCountKey := Uint64ToBigEndian 2]>
          (<[lastBallSentKey := Uint64ToBigEndian 7]>
             (<[receivedBallsCountKey := Uint64ToBigEndian 4]> ∅)))).

Definition storeMidGameMax50 : Store :=
  <[maxValueKey := Uint64ToBigEndian 50]> storeMidGame.

(** [strconv.Quote] on a string of printable ASCII characters: the string
    between double quotes, with a backslash before each double quote and
    each backslash. *)
Definition doubleQuote : ascii := Ascii false true false false false true false false.
Definition backslash : ascii := Ascii false false true true true false true false.

Fixpoint quoteBody (s : string) : string :=
  match s with
  | EmptyString => EmptyString
  | String c s' =>
      if (Ascii.eqb c doubleQuote || Ascii.eqb c backslash)%bool
      then String backslash (String c (quoteBody s'))
      else String c (quoteBody s')
  end.

Definition asciiQuote (s : string) : string :=
  String doubleQuote (quoteBody s +:+ String doubleQuote EmptyString).

Definition wireJSON : JSON :=
  {| Marshal_hit := wire_hit;
     Unmarshal_hit := unwire_hit;
     Marshal_ack := wire_ack;
     Unmarshal_ack := unwire_ack;
     Marshal_endpoints := wire_endpoints;
     Unmarshal_endpoints := unwire_endpoints;
     Unmarshal_Marshal_endpoints := unwire_wire_endpoints |}.

End relay_pingpong.

(** ** The governance proposals of the second half of [ibc.go]
       (package [types]) *)

Module proposal.
Import golang.

(** The errors [ValidateBasic] returns: the registered errors it names, an
    error of a validator declared elsewhere (known by its text), and
    [sdkerrors.Wrap]. *)
Inductive perror : Type :=
| ErrInvalidProposalContent               (* govtypes.ErrInvalidProposalContent *)
| ErrInvalidRequest                       (* sdkerrors.ErrInvalidRequest *)
| ErrInvalidCoins                         (* sdkerrors.ErrInvalidCoins *)
| ErrOther (text : string)
| Wrap (cause : perror) (msg : string).

(** [err.Error()]. *)
Fixpoint perror_text (e : perror) : string :=
  match e with
  | ErrInvalidProposalContent => "invalid proposal content"
  | ErrInvalidRequest => "invalid request"
  | ErrInvalidCoins => "invalid coins"
  | ErrOther text => text
  | Wrap cause msg => msg +:+ ": " +:+ perror_text cause
  end.

(** What the file takes from elsewhere: the two length limits of package
    [govtypes], [strings.TrimSpace] (which returns a part of its argument),
    [sdk.VerifyAddressFormat], [sdk.Coins.IsValid], and the validators of
    this package that are declared in another file. *)
Class Validators : Type := {
  MaxTitleLength : Z;
  MaxDescriptionLength : Z;
  TrimSpace : string -> string;
  TrimSpace_shorter : forall s, (String.length (TrimSpace s) <= String.length s)%nat;
  VerifyAddressFormat : list Z -> option perror;
  Coins_IsValid : list (string * Z) -> bool;
  validateWasmCode : list Z -> option perror;
  validateSourceURL : string -> option perror;
  validateBuilder : string -> option perror;
  validateLabel : string -> option perror
}.

Record WasmProposal : Type := {
  Title : string;
  Description : string
}.

Record StoreCodeProposal : Type := {
  StoreCode_WasmProposal : WasmProposal;
  StoreCode_Creator : list Z;
  WASMByteCode : list Z;
  Source : string;
  Builder : string
}.

Record InstantiateContractProposal : Type := {
  Instantiate_WasmProposal : WasmProposal;
  Instantiate_Creator : list Z;
  Admin : list Z;
  Instantiate_Code : Z;
  Label : string;
  InitMsg : list Z;
  InitFunds : list (string * Z)
}.

Record MigrateContractProposal : Type := {
  Migrate_WasmProposal : WasmProposal;
  Migrate_Contract : list Z;
  Migrate_Code : Z;
  MigrateMsg : list Z
}.

Record UpdateAdminContractProposal : Type := {
  UpdateAdmin_WasmProposal : WasmProposal;
  NewAdmin : list Z;
  UpdateAdmin_Contract : list Z
}.

Record ClearAdminContractProposal : Type := {
  ClearAdmin_WasmProposal : WasmProposal;
  ClearAdmin_Contract : list Z
}.

Section ValidateBasic.
Context `{V : Validators}.

Definition WasmProposal_ValidateBasic (p : WasmProposal) : option perror :=
  if len_string (TrimSpace (Title p)) =? 0 then
    Some (Wrap ErrInvalidProposalContent "proposal title cannot be blank")
  else if MaxTitleLength <? len_string (Title p) then
    Some (Wrap ErrInvalidProposalContent
            ("proposal title is longer than max length of " +:+ pretty MaxTitleLength))
  else if len_string (Description p) =? 0 then
    Some (Wrap ErrInvalidProposalContent "proposal description cannot be blank")
  else if MaxDescriptionLength <? len_string (Description p) then
    Some (Wrap ErrInvalidProposalContent
            ("proposal description is longer than max length of "
             +:+ pretty MaxDescriptionLength))
  else None.

Definition StoreCodeProposal_ValidateBasic (p : StoreCodeProposal) : option perror :=
  match WasmProposal_ValidateBasic (StoreCode_WasmProposal p) with
  | Some err => Some err
  | None =>
  match VerifyAddressFormat (StoreCode_Creator p) with
  | Some err => Some err
  | None =>
  match validateWasmCode (WASMByteCode p) with
  | Some err => Some (Wrap ErrInvalidRequest ("code bytes " +:+ perror_text err))
  | None =>
  match validateSourceURL (Source p) with
  | Some err => Some (Wrap ErrInvalidRequest ("source " +:+ perror_text err))
  | None =>
  match validateBuilder (Builder p) with
  | Some err => Some (Wrap ErrInvalidRequest ("builder " +:+ perror_text err))
  | None => None
  end end end end end.

Definition InstantiateContractProposal_ValidateBasic (p : InstantiateContractProposal)
    : option perror :=
  match WasmProposal_ValidateBasic (Instantiate_WasmProposal p) with
  | Some err => Some err
  | None =>
  match VerifyAddressFormat (Instantiate_Creator p) with
  | Some _ => Some (Wrap ErrInvalidRequest "creator is required")
  | None =>
  if Instantiate_Code p =? 0 then Some (Wrap ErrInvalidRequest "code_id is required")
  else
  match validateLabel (Label p) with
  | Some err => Some err
  | None =>
  if negb (Coins_IsValid (InitFunds p)) then Some ErrInvalidCoins
  else if negb (len_slice (Admin p) =? 0) then
    match VerifyAddressFormat (Admin p) with
    | Some err => Some err
    | None => None
    end
  else None
  end end end.

Definition MigrateContractProposal_ValidateBasic (p : MigrateContractProposal)
    : option perror :=
  match WasmProposal_ValidateBasic (Migrate_WasmProposal p) with
  | Some err => Some err
  | None =>
  if Migrate_Code p =? 0 then Some (Wrap ErrInvalidRequest "code_id is required")
  else
  match VerifyAddressFormat (Migrate_Contract p) with
  | Some err => Some (Wrap err "contract")
  | None => None
  end end.

Definition UpdateAdminContractProposal_ValidateBasic (p : UpdateAdminContractProposal)
    : option perror :=
  match WasmProposal_ValidateBasic (UpdateAdmin_WasmProposal p) with
  | Some err => Some err
  | None =>
  match VerifyAddressFormat (UpdateAdmin_Contract p) with
  | Some err => Some (Wrap err "contract")
  | None =>
  match VerifyAddressFormat (NewAdmin p) with
  | Some err => Some (Wrap err "new admin")
  | None => None
  end end end.

Definition ClearAdminContractProposal_ValidateBasic (p : ClearAdminContractProposal)
    : option perror :=
  match WasmProposal_ValidateBasic (ClearAdmin_WasmProposal p) with
  | Some err => Some err
  | None =>
  match VerifyAddressFormat (ClearAdmin_Contract p) with
  | Some err => Some (Wrap err "contract")
  | None => None
  end end.

End ValidateBasic.

(** *** Validators to run the proposals against

    Addresses of 20 bytes, limits 140 and 5000, every code, URL, builder and
    label accepted, coins valid when every amount is positive, and a
    [TrimSpace] that strips the six ASCII white-space characters. *)

Definition isSpace (c : ascii) : bool :=
  existsb (Ascii.eqb c) [" "; "009"; "010"; "011"; "012"; "013"]%char.

Fixpoint trimLeft (l : list ascii) : list ascii :=
  match l with
  | c :: l' => if isSpace c then trimLeft l' else l
  | [] => []
  end.

Definition asciiTrimSpace (s : string) : string :=
  string_of_list_ascii (rev (trimLeft (rev (trimLeft (list_ascii_of_string s))))).

Lemma trimLeft_shorter l : (List.length (trimLeft l) <= List.length l)%nat.
Proof. induction l as [|c l IH]; simpl; [lia|]. destruct (isSpace c); simpl; lia. Qed.

Lemma asciiTrimSpace_shorter s :
  (String.length (asciiTrimSpace s) <= String.length s)%nat.
Proof.
  unfold asciiTrimSpace.
  assert (Hlen : forall l, String.length (string_of_list_ascii l) = List.length l).
  { induction l as [|c l IH]; simpl; [reflexivity|]. rewrite IH. reflexivity. }
  rewrite Hlen, length_rev.
  pose proof (trimLeft_shorter (rev (trimLeft (list_ascii_of_string s)))) as H1.
  rewrite length_rev in H1.
  pose proof (trimLeft_shorter (list_ascii_of_string s)) as H2.
  rewrite <- (Hlen (list_ascii_of_string s)), string_of_list_ascii_of_string in H2. lia.
Qed.

Definition plainValidators : Validators :=
  {| MaxTitleLength := 140;
     MaxDescriptionLength := 5000;
     TrimSpace := asciiTrimSpace;
     TrimSpace_shorter := asciiTrimSpace_shorter;
     VerifyAddressFormat := fun bz =>
       if len_slice bz =? 20 then None else Some (ErrOther "incorrect address length");
     Coins_IsValid := forallb (fun c => 0 <? snd c);
     validateWasmCode := fun _ => None;
     validateSourceURL := fun _ => None;
     validateBuilder := fun _ => None;
     validateLabel := fun _ => None |}.

Definition plainProposal : WasmProposal :=
  {| Title := "Pin code 1"; Description := "Keep the code of contract 1 warm" |}.

End proposal.

(** ** The keeper options that set the costs ([WithCosts], [WithApiCosts]) *)

Module options.
Import golang gas_register.

(** What the two options write: the [gasRegister] field of the keeper and
    the package variables [costHumanize] and [costCanonical]. *)
Record CostState : Type := {
  gasRegister : GasRegister;
  costHumanize : Z;
  costCanonical : Z
}.

(** [WithApiCosts(human, canonical)], applied. *)
Definition WithApiCosts (human canonical : Z) (k : CostState) : CostState :=
  {| gasRegister := gasRegister k;
     costHumanize := human;
     costCanonical := canonical |}.

(** [WithCosts(compile, instance, multiplier, attribute)], applied.  The two
    default API costs are constants of another file of the package and are
    parameters here. *)
Definition WithCosts (DefaultGasCostHumanAddress DefaultGasCostCanonicalAddress : Z)
    (compile instance multiplier attribute : Z) (k : CostState) : CostState :=
  let k1 :=
    {| gasRegister :=
         {| instanceCost := instance;
            compileCost := compile;
            gasMultiplier := multiplier;
            eventPerAttributeCost := eventPerAttributeCost (gasRegister k);
            eventAttributeDataCost := attribute;
            eventAttributeDataFreeTier := eventAttributeDataFreeTier (gasRegister k) |};
       costHumanize := costHumanize k;
       costCanonical := costCanonical k |} in
  WithApiCosts (wrap64 (DefaultGasCostHumanAddress * multiplier))
               (wrap64 (DefaultGasCostCanonicalAddress * multiplier)) k1.

(** A cost state to run the options on. *)
Definition defaultCostState : CostState :=
  {| gasRegister := DefaultGasRegister; costHumanize := 500; costCanonical := 400 |}.

End options.

(* ===================================================================== *)
(** * Part II: the theorems                                                *)
(* ===================================================================== *)

Section GasConversion.
Import golang gas_register.

Lemma wrap64_small z : uint64_ok z -> wrap64 z = z.
Proof. unfold uint64_ok, wrap64. intros H. apply Z.mod_small. lia. Qed.

Lemma ToWasmVMGas_exact g source :
  uint64_ok source -> 0 <= gasMultiplier g ->
  source * gasMultiplier g < 2 ^ 64 ->
  ToWasmVMGas g source = source * gasMultiplier g.
Proof.
  intros Hs Hm Hlt. unfold ToWasmVMGas. apply wrap64_small.
  unfold uint64_ok in *. nia.
Qed.

(** C1. For every ledger-gas value [source] whose product with a positive
    multiplier fits 64 bits, [ToWasmVMGas] is the exact product and
    [FromWasmVMGas] brings it back to [source]; [FromWasmVMGas] is floor
    division: it returns the largest ledger-gas value whose VM-gas
    equivalent does not exceed its argument, so a fraction is never rounded
    up. *)
Theorem FromWasmVMGas_ToWasmVMGas g source :
  uint64_ok source -> 0 < gasMultiplier g ->
  source * gasMultiplier g < 2 ^ 64 ->
  ToWasmVMGas g source = source * gasMultiplier g /\
  FromWasmVMGas g (ToWasmVMGas g source) = Ret source /\
  (forall vmGas, uint64_ok vmGas ->
     exists ledgerGas,
       FromWasmVMGas g vmGas = Ret ledgerGas /\
       ledgerGas = vmGas / gasMultiplier g /\
       ledgerGas * gasMultiplier g <= vmGas < (ledgerGas + 1) * gasMultiplier g).
Proof.
  intros Hs Hm Hlt.
  assert (Hnz : (gasMultiplier g =? 0) = false) by (apply Z.eqb_neq; lia).
  split; [apply ToWasmVMGas_exact; auto; lia|]. split.
  - rewrite ToWasmVMGas_exact by (auto; lia).
    unfold FromWasmVMGas. rewrite Hnz. f_equal.
    apply Z.div_mul. lia.
  - intros vmGas Hv. exists (vmGas / gasMultiplier g).
    unfold FromWasmVMGas. rewrite Hnz. split; [reflexivity|]. split; [reflexivity|].
    pose proof (Z.mul_div_le vmGas (gasMultiplier g) Hm).
    pose proof (Z.mul_succ_div_gt vmGas (gasMultiplier g) Hm).
    lia.
Qed.

Lemma FromWasmVMGas_ToWasmVMGas_default :
  uint64_ok 1000 /\ 0 < gasMultiplier DefaultGasRegister /\
  ToWasmVMGas DefaultGasRegister 1000 = 100000 /\
  FromWasmVMGas DefaultGasRegister (ToWasmVMGas DefaultGasRegister 1000) = Ret 1000.
Proof.
  assert (H1 : uint64_ok 1000) by (unfold uint64_ok; lia).
  assert (H2 : 0 < gasMultiplier DefaultGasRegister) by (simpl; unfold DefaultGasMultiplier; lia).
  assert (H3 : 1000 * gasMultiplier DefaultGasRegister < 2 ^ 64)
    by (simpl; unfold DefaultGasMultiplier; lia).
  split; [exact H1|]. split; [exact H2|].
  destruct (FromWasmVMGas_ToWasmVMGas DefaultGasRegister 1000 H1 H2 H3) as (Ha & Hb & _).
  split; [exact Ha | exact Hb].
Defined.

(** C10 (the code wraps). With the default multiplier 100 the ledger-gas
    value 184467440737095517 has the product 18446744073709551700, which is
    past 2^64, and [ToWasmVMGas] returns 84. *)
Theorem ToWasmVMGas_wraps :
  uint64_ok 184467440737095517 /\
  184467440737095517 * gasMultiplier DefaultGasRegister = 18446744073709551700 /\
  ToWasmVMGas DefaultGasRegister 184467440737095517 = 84.
Proof.
  split; [unfold uint64_ok; lia|]. split; reflexivity.
Qed.

End GasConversion.

Section EventCost.
Import golang gas_register.

Lemma wrap_int_small z : int_ok z -> wrap_int z = z.
Proof.
  unfold int_ok, wrap_int. intros H.
  rewrite Z.mod_small by lia. lia.
Qed.

Lemma len_string_nonneg s : 0 <= len_string s.
Proof. unfold len_string. lia. Qed.

Lemma attributeBytes_nonneg evts : 0 <= attributeBytes evts.
Proof.
  induction evts as [|l evts IH]; simpl; [lia|].
  pose proof (len_string_nonneg (Key l)). pose proof (len_string_nonneg (Value l)). lia.
Qed.

(** The [int] accumulator of the loop never wraps when the byte length
    fits an [int]. *)
Lemma sumStoredBytes_from evts : forall acc,
  0 <= acc -> acc + attributeBytes evts < 2 ^ 63 ->
  fold_left
    (fun storedBytes l =>
       wrap_int (storedBytes + wrap_int (len_string (Key l) + len_string (Value l))))
    evts acc = acc + attributeBytes evts.
Proof.
  induction evts as [|l evts IH]; intros acc Hacc Hfit; simpl in *; [lia|].
  pose proof (len_string_nonneg (Key l)). pose proof (len_string_nonneg (Value l)).
  pose proof (attributeBytes_nonneg evts).
  rewrite (wrap_int_small (len_string (Key l) + len_string (Value l)))
    by (unfold int_ok; lia).
  rewrite wrap_int_small by (unfold int_ok; lia).
  rewrite IH by lia. lia.
Qed.

Lemma sumStoredBytes_exact evts :
  attributeBytes evts < 2 ^ 63 -> sumStoredBytes evts = attributeBytes evts.
Proof.
  intros H. unfold sumStoredBytes. rewrite sumStoredBytes_from; lia.
Qed.

Lemma BitLen_nonneg z : 0 <= BitLen z.
Proof.
  unfold BitLen. destruct (z =? 0); [lia|].
  pose proof (Z.log2_nonneg (Z.abs z)). lia.
Qed.

Lemma BitLen_le z k : 0 <= k -> 0 <= z < 2 ^ k -> BitLen z <= k.
Proof.
  intros Hk Hz. unfold BitLen. destruct (Z.eqb_spec z 0) as [->|Hnz]; [lia|].
  rewrite Z.abs_eq by lia.
  assert (Z.log2 z < k) by (apply Z.log2_lt_pow2; lia). lia.
Qed.

(** [sdk.Int] multiplication and addition of 64-bit operands stay far below
    the 255-bit limit. *)
Lemma Int_Mul_uint64 a b : uint64_ok a -> uint64_ok b -> Int_Mul a b = Ret (a * b).
Proof.
  unfold uint64_ok. intros Ha Hb. unfold Int_Mul, maxBitLen.
  pose proof (BitLen_le a 64 ltac:(lia) Ha).
  pose proof (BitLen_le b 64 ltac:(lia) Hb).
  assert (Hab : 0 <= a * b < 2 ^ 128).
  { change (2 ^ 128) with (2 ^ 64 * 2 ^ 64). nia. }
  pose proof (BitLen_le (a * b) 128 ltac:(lia) Hab).
  destruct (Z.ltb_spec 255 (BitLen a + BitLen b - 1)); [lia|].
  cbv zeta. destruct (Z.ltb_spec 255 (BitLen (a * b))); [lia|]. reflexivity.
Qed.

Lemma Int_Add_wide a b :
  0 <= a < 2 ^ 128 -> 0 <= b < 2 ^ 128 -> Int_Add a b = Ret (a + b).
Proof.
  intros Ha Hb. unfold Int_Add, maxBitLen. cbv zeta.
  assert (Hab : 0 <= a + b < 2 ^ 129).
  { change (2 ^ 129) with (2 ^ 128 + 2 ^ 128). lia. }
  pose proof (BitLen_le (a + b) 129 ltac:(lia) Hab).
  destruct (Z.ltb_spec 255 (BitLen (a + b))); [lia|]. reflexivity.
Qed.

Lemma uint64_of_int_range z : uint64_ok (uint64_of_int z).
Proof. unfold uint64_ok, uint64_of_int. apply Z.mod_pos_bound. lia. Qed.

(** What [EventCosts] computes on a non-empty slice: the wide sum, returned
    when it is a [uint64] and turned into an out-of-gas panic otherwise. *)
Lemma EventCosts_nonempty g evts :
  GasRegister_ok g -> evts <> [] ->
  EventCosts g evts =
    let r := eventAttributeDataCost g * uint64_of_int (applyFreeTier g (sumStoredBytes evts))
             + eventPerAttributeCost g * uint64_of_int (len_slice evts) in
    if r <? 2 ^ 64 then Ret r else Panic (ErrorOutOfGas "overflow").
Proof.
  intros Hg Hne. unfold EventCosts.
  assert (Hlen : (len_slice evts =? 0) = false).
  { apply Z.eqb_neq. unfold len_slice. destruct evts; [congruence|simpl; lia]. }
  rewrite Hlen. unfold NewIntFromUint64.
  pose proof (eventAttributeDataCost_ok g Hg) as Hd.
  pose proof (eventPerAttributeCost_ok g Hg) as Hp.
  pose proof (uint64_of_int_range (applyFreeTier g (sumStoredBytes evts))) as Hb.
  pose proof (uint64_of_int_range (len_slice evts)) as Hc.
  rewrite (Int_Mul_uint64 _ _ Hd Hb). simpl obind.
  rewrite (Int_Mul_uint64 _ _ Hp Hc). simpl obind.
  unfold uint64_ok in *.
  rewrite Int_Add_wide
    by (change (2 ^ 128) with (2 ^ 64 * 2 ^ 64); nia).
  simpl obind. cbv zeta. unfold Int_IsUint64.
  match goal with |- context [0 <=? ?r] => assert (Hr : 0 <= r) by nia end.
  destruct (Z.leb_spec 0
    (eventAttributeDataCost g * uint64_of_int (applyFreeTier g (sumStoredBytes evts))
     + eventPerAttributeCost g * uint64_of_int (len_slice evts))); [|lia].
  simpl. destruct (Z.ltb_spec
    (eventAttributeDataCost g * uint64_of_int (applyFreeTier g (sumStoredBytes evts))
     + eventPerAttributeCost g * uint64_of_int (len_slice evts)) (2 ^ 64)); reflexivity.
Qed.

Lemma uint64_of_wrap_int z : uint64_of_int (wrap_int z) = z mod 2 ^ 64.
Proof.
  unfold uint64_of_int, wrap_int.
  rewrite Zminus_mod, Zmod_mod, <- Zminus_mod.
  f_equal. lia.
Qed.

(** The billable bytes the code computes, read as a [uint64], are the
    specification's on every slice that fits in memory. *)
Lemma applyFreeTier_billable g evts :
  GasRegister_ok g -> slice_fits evts ->
  evts <> [] \/ 0 <= eventAttributeDataFreeTier g ->
  uint64_of_int (applyFreeTier g (sumStoredBytes evts)) = billableBytes g evts.
Proof.
  intros Hg [_ Hfit] _. rewrite (sumStoredBytes_exact _ Hfit).
  pose proof (attributeBytes_nonneg evts) as Hnn.
  pose proof (eventAttributeDataFreeTier_ok g Hg) as Hf. unfold int_ok in Hf.
  unfold applyFreeTier, billableBytes.
  destruct (Z.leb_spec (attributeBytes evts) (eventAttributeDataFreeTier g)).
  - rewrite Z.max_l by lia. reflexivity.
  - rewrite Z.max_r by lia. rewrite uint64_of_wrap_int.
    apply Z.mod_small. lia.
Qed.

(** [EventCosts] against the exact cost: returned when it is a [uint64],
    an out-of-gas panic otherwise. *)
Lemma EventCosts_exact g evts :
  GasRegister_ok g -> slice_fits evts ->
  evts <> [] \/ 0 <= eventAttributeDataFreeTier g ->
  EventCosts g evts =
    if exactEventCost g evts <? 2 ^ 64 then Ret (exactEventCost g evts)
    else Panic (ErrorOutOfGas "overflow").
Proof.
  intros Hg Hfit Hcase. destruct evts as [|l evts].
  - destruct Hcase as [Hne|Hfree]; [congruence|].
    unfold EventCosts, exactEventCost, billableBytes. simpl.
    rewrite Z.max_l by lia. reflexivity.
  - rewrite EventCosts_nonempty by (auto; congruence). cbv zeta.
    rewrite applyFreeTier_billable by (auto; left; congruence).
    assert (Hlen : uint64_of_int (len_slice (l :: evts)) = len_slice (l :: evts)).
    { destruct Hfit as [Hlen _]. unfold uint64_of_int.
      apply Z.mod_small. unfold len_slice in *. lia. }
    rewrite Hlen. unfold exactEventCost.
    replace (eventAttributeDataCost g * billableBytes g (l :: evts)
             + eventPerAttributeCost g * len_slice (l :: evts))
      with (billableBytes g (l :: evts) * eventAttributeDataCost g
            + len_slice (l :: evts) * eventPerAttributeCost g) by lia.
    reflexivity.
Qed.

(** C4. For every gas register and every attribute slice that fits in
    memory (the empty slice under a negative free tier apart, for which the
    code does not evaluate the formula), if
    [billableBytes * eventAttrCost + count * eventAttrCountCost] is past the
    64-bit range then [EventCosts] panics with [ErrorOutOfGas]: it returns
    no value, wrapped or truncated. *)
Theorem EventCosts_overflow_panics g evts :
  GasRegister_ok g -> slice_fits evts ->
  evts <> [] \/ 0 <= eventAttributeDataFreeTier g ->
  2 ^ 64 <= billableBytes g evts * eventAttributeDataCost g
            + len_slice evts * eventPerAttributeCost g ->
  EventCosts g evts = Panic (ErrorOutOfGas "overflow").
Proof.
  intros Hg Hfit Hcase Hover.
  rewrite EventCosts_exact by assumption.
  unfold exactEventCost.
  destruct (Z.ltb_spec
    (billableBytes g evts * eventAttributeDataCost g
     + len_slice evts * eventPerAttributeCost g) (2 ^ 64)); [lia|reflexivity].
Qed.

(** Inside the free tier the billable bytes are 0, so that [EventCosts]
    decides on [count * eventAttrCountCost] alone. *)
Lemma EventCosts_waived g evts :
  GasRegister_ok g -> evts <> [] ->
  attributeBytes evts <= eventAttributeDataFreeTier g ->
  EventCosts g evts =
    let r := eventPerAttributeCost g * uint64_of_int (len_slice evts) in
    if r <? 2 ^ 64 then Ret r else Panic (ErrorOutOfGas "overflow").
Proof.
  intros Hg Hne Hfree. rewrite EventCosts_nonempty by assumption. cbv zeta.
  pose proof (eventAttributeDataFreeTier_ok g Hg) as Hf. unfold int_ok in Hf.
  rewrite sumStoredBytes_exact by lia.
  unfold applyFreeTier.
  destruct (Z.leb_spec (attributeBytes evts) (eventAttributeDataFreeTier g)); [|lia].
  change (uint64_of_int 0) with 0. rewrite Z.mul_0_r, Z.add_0_l. reflexivity.
Qed.

(** C5, as amended. When the byte length of all keys and values is at most
    the free tier, [EventCosts] decides on [count * eventAttrCountCost]
    alone.  When that product fits 64 bits, [EventCosts] returns exactly
    it: the per-byte component is waived, and the empty slice costs 0.
    When it does not fit 64 bits, [EventCosts] panics with [ErrorOutOfGas]
    instead of returning, for every slice ([len(evts)] is a Go [int]). *)
Theorem EventCosts_free_tier g evts :
  GasRegister_ok g ->
  attributeBytes evts <= eventAttributeDataFreeTier g ->
  (len_slice evts * eventPerAttributeCost g < 2 ^ 64 ->
   EventCosts g evts = Ret (len_slice evts * eventPerAttributeCost g)) /\
  (int_ok (len_slice evts) ->
   2 ^ 64 <= len_slice evts * eventPerAttributeCost g ->
   EventCosts g evts = Panic (ErrorOutOfGas "overflow")).
Proof.
  intros Hg Hfree.
  pose proof (eventPerAttributeCost_ok g Hg) as Hp. unfold uint64_ok in Hp.
  split.
  - intros Hfit. destruct evts as [|l evts]; [reflexivity|].
    rewrite EventCosts_waived by (auto; congruence). cbv zeta.
    assert (Hc : eventPerAttributeCost g * uint64_of_int (len_slice (l :: evts))
                 = len_slice (l :: evts) * eventPerAttributeCost g).
    { destruct (Z.eq_dec (eventPerAttributeCost g) 0) as [Hz|Hnz].
      - rewrite Hz. lia.
      - unfold uint64_of_int. rewrite Z.mod_small; [lia|].
        unfold len_slice in *. nia. }
    rewrite Hc.
    destruct (Z.ltb_spec (len_slice (l :: evts) * eventPerAttributeCost g) (2 ^ 64));
      [reflexivity|lia].
  - intros Hlen Hover. unfold int_ok in Hlen.
    assert (Hne : evts <> []).
    { intros ->. unfold len_slice in Hover. cbn in Hover. lia. }
    rewrite EventCosts_waived by assumption. cbv zeta.
    assert (Hc : uint64_of_int (len_slice evts) = len_slice evts).
    { unfold uint64_of_int. apply Z.mod_small. unfold len_slice in *. lia. }
    rewrite Hc.
    destruct (Z.ltb_spec (eventPerAttributeCost g * len_slice evts) (2 ^ 64));
      [lia|reflexivity].
Qed.

Ltac register_ok :=
  constructor; cbn; unfold uint64_ok, int_ok, DefaultInstanceCost, DefaultCompileCost,
    DefaultGasMultiplier, DefaultPerAttributeCost, DefaultEventAttributeDataCost,
    DefaultEventAttributeDataFreeTier; lia.

Lemma byteCostlyRegister_ok : GasRegister_ok byteCostlyRegister.
Proof. register_ok. Qed.

Lemma EventCosts_overflow_panics_at_four_bytes :
  2 ^ 64 <= billableBytes byteCostlyRegister [{| Key := "ab"; Value := "cd" |}]
              * eventAttributeDataCost byteCostlyRegister
            + len_slice [{| Key := "ab"; Value := "cd" |}]
              * eventPerAttributeCost byteCostlyRegister /\
  EventCosts byteCostlyRegister [{| Key := "ab"; Value := "cd" |}]
    = Panic (ErrorOutOfGas "overflow").
Proof.
  assert (Hover : 2 ^ 64 <= billableBytes byteCostlyRegister [{| Key := "ab"; Value := "cd" |}]
              * eventAttributeDataCost byteCostlyRegister
            + len_slice [{| Key := "ab"; Value := "cd" |}]
              * eventPerAttributeCost byteCostlyRegister) by (vm_compute; discriminate).
  split; [exact Hover|].
  apply (EventCosts_overflow_panics byteCostlyRegister [{| Key := "ab"; Value := "cd" |}]).
  - exact byteCostlyRegister_ok.
  - split; vm_compute; reflexivity.
  - left. discriminate.
  - exact Hover.
Defined.

Lemma DefaultGasRegister_ok : GasRegister_ok DefaultGasRegister.
Proof. register_ok. Qed.

Lemma countCostlyRegister_ok : GasRegister_ok countCostlyRegister.
Proof. register_ok. Qed.

Lemma EventCosts_free_tier_default :
  EventCosts DefaultGasRegister [{| Key := "action"; Value := "transfer" |}] = Ret 10 /\
  EventCosts countCostlyRegister
    [{| Key := "a"; Value := "b" |}; {| Key := "c"; Value := "d" |};
     {| Key := "e"; Value := "f" |}]
  = Panic (ErrorOutOfGas "overflow").
Proof.
  split.
  - apply (EventCosts_free_tier DefaultGasRegister
             [{| Key := "action"; Value := "transfer" |}]).
    + exact DefaultGasRegister_ok.
    + vm_compute. discriminate.
    + vm_compute. reflexivity.
  - apply (EventCosts_free_tier countCostlyRegister
             [{| Key := "a"; Value := "b" |}; {| Key := "c"; Value := "d" |};
              {| Key := "e"; Value := "f" |}]).
    + exact countCostlyRegister_ok.
    + vm_compute. discriminate.
    + unfold int_ok, len_slice. cbn. lia.
    + unfold len_slice. cbn. lia.
Defined.

(** C5 as stated fails: inside the free tier [EventCosts] can panic instead
    of returning [count * eventAttrCountCost]. *)
Lemma EventCosts_free_tier_overflow :
  GasRegister_ok countCostlyRegister /\
  attributeBytes [{| Key := ""; Value := "" |}; {| Key := ""; Value := "" |}]
    <= eventAttributeDataFreeTier countCostlyRegister /\
  EventCosts countCostlyRegister
    [{| Key := ""; Value := "" |}; {| Key := ""; Value := "" |}]
    = Panic (ErrorOutOfGas "overflow") /\
  EventCosts countCostlyRegister
    [{| Key := ""; Value := "" |}; {| Key := ""; Value := "" |}]
    <> Ret (len_slice [{| Key := ""; Value := "" |}; {| Key := ""; Value := "" |}]
            * eventPerAttributeCost countCostlyRegister).
Proof.
  split; [register_ok|]. split; [vm_compute; discriminate|].
  split; [vm_compute; reflexivity|]. vm_compute. discriminate.
Qed.

End EventCost.

Section BitArithmetic.
Import golang.

Lemma byte_of_mod x : byte_of x = x mod 256.
Proof. unfold byte_of. change 255 with (Z.ones 8). rewrite Z.land_ones by lia. reflexivity. Qed.

Lemma byte_of_small x : byte_ok x -> byte_of x = x.
Proof. unfold byte_ok. intros H. rewrite byte_of_mod. apply Z.mod_small. exact H. Qed.

Lemma land_63 x : Z.land x 63 = x mod 64.
Proof. change 63 with (Z.ones 6). rewrite Z.land_ones by lia. reflexivity. Qed.

Lemma land_127 x : Z.land x 127 = x mod 128.
Proof. change 127 with (Z.ones 7). rewrite Z.land_ones by lia. reflexivity. Qed.

Lemma land_32 x : Z.land x 4294967295 = x mod 2 ^ 32.
Proof. change 4294967295 with (Z.ones 32). rewrite Z.land_ones by lia. reflexivity. Qed.

(** [x | b] is [x + b] when [b] sits below the lowest set bit of [x]. *)
Lemma lor_add_multiple x b n :
  0 <= n -> 0 <= b < 2 ^ n -> x mod 2 ^ n = 0 -> Z.lor x b = x + b.
Proof.
  intros Hn Hb Hx.
  assert (Hland : Z.land x b = 0).
  { apply Z.bits_inj'. intros k Hk. rewrite Z.land_spec, Z.bits_0.
    destruct (Z.lt_ge_cases k n) as [Hlt|Hge].
    - rewrite <- (Z.mod_pow2_bits_low x n k) by lia. rewrite Hx, Z.bits_0. reflexivity.
    - rewrite <- (Z.mod_small b (2 ^ n)) by lia.
      rewrite Z.mod_pow2_bits_high by lia. apply andb_false_r. }
  rewrite <- Z.lxor_lor by exact Hland.
  symmetry. apply Z.add_nocarry_lxor. exact Hland.
Qed.

Lemma lor_shiftl_add a b n :
  0 <= n -> 0 <= b < 2 ^ n -> Z.lor (Z.shiftl a n) b = a * 2 ^ n + b.
Proof.
  intros Hn Hb. rewrite Z.shiftl_mul_pow2 by lia.
  apply (lor_add_multiple _ _ n); auto.
  apply Z.mod_mul. lia.
Qed.

(** A property of the integers below [n], decided by running through
    them. *)
Lemma forall_below (n : nat) (P : Z -> bool) :
  forallb P (map Z.of_nat (seq 0 n)) = true ->
  forall z, 0 <= z < Z.of_nat n -> P z = true.
Proof.
  intros Hall z Hz. rewrite forallb_forall in Hall. apply Hall.
  apply in_map_iff. exists (Z.to_nat z). split; [lia|].
  apply in_seq. lia.
Qed.

End BitArithmetic.

Section Varint.
Import golang binary.

(** The continuation byte [byte(x) | 0x80]: at least 0x80, a byte, and its
    low seven bits are those of [x]. *)
Lemma continuation_byte x :
  let b := Z.lor (byte_of x) 128 in
  128 <= b < 256 /\ Z.land b 127 = x mod 128.
Proof.
  cbv zeta. rewrite byte_of_mod, land_127.
  assert (Hr : 0 <= x mod 256 < Z.of_nat 256) by (pose proof (Z.mod_pos_bound x 256); lia).
  pose proof (forall_below 256
    (fun a => (128 <=? Z.lor a 128) && (Z.lor a 128 <? 256)
              && (Z.lor a 128 mod 128 =? a mod 128))
    ltac:(vm_compute; reflexivity) _ Hr) as Hc.
  cbv beta in Hc. apply andb_prop in Hc as [Hc H3]. apply andb_prop in Hc as [H1 H2].
  apply Z.leb_le in H1. apply Z.ltb_lt in H2. apply Z.eqb_eq in H3.
  split; [lia|]. rewrite H3. Z.div_mod_to_equations. lia.
Qed.

Lemma lor_wrap64_shiftl acc v s :
  0 <= s -> 0 <= acc < 2 ^ s -> 0 <= v -> v * 2 ^ s < 2 ^ 64 ->
  Z.lor acc (wrap64 (Z.shiftl v s)) = acc + v * 2 ^ s.
Proof.
  intros Hs Hacc Hv Hfit.
  rewrite Z.shiftl_mul_pow2 by lia.
  rewrite wrap64_small by (unfold uint64_ok; nia).
  rewrite Z.lor_comm. rewrite (lor_add_multiple _ _ s); auto; [lia|].
  apply Z.mod_mul. lia.
Qed.

(** Reading back what [PutUvarint_loop] wrote from index [i] on: the value
    is rebuilt and every byte is consumed. *)
Lemma Uvarint_loop_PutUvarint_loop n : forall y i acc,
  0 <= i -> i + Z.of_nat n = 9 ->
  0 <= acc < 2 ^ (7 * i) -> 0 <= y -> y * 2 ^ (7 * i) < 2 ^ 64 ->
  Uvarint_loop (PutUvarint_loop n y) i acc (7 * i)
  = (acc + y * 2 ^ (7 * i), i + len_slice (PutUvarint_loop n y)).
Proof.
  induction n as [|n IH]; intros y i acc Hi Hin Hacc Hy Hfit.
  - assert (i = 9) by lia. subst i. change (7 * 9) with 63 in *.
    assert (Hy2 : y < 2) by (change (2 ^ 64) with (2 * 2 ^ 63) in Hfit; nia).
    simpl PutUvarint_loop. rewrite byte_of_small by (unfold byte_ok; lia).
    simpl Uvarint_loop. unfold MaxVarintLen64.
    destruct (Z.ltb_spec y 128); [|lia]. simpl.
    destruct (Z.ltb_spec 1 y); [lia|].
    rewrite lor_wrap64_shiftl by lia. reflexivity.
  - assert (Hp : 0 < 2 ^ (7 * i)) by (apply Z.pow_pos_nonneg; lia).
    assert (Hnext : 2 ^ (7 * (i + 1)) = 128 * 2 ^ (7 * i)).
    { replace (7 * (i + 1)) with (7 + 7 * i) by lia.
      rewrite Z.pow_add_r by lia. reflexivity. }
    simpl PutUvarint_loop. destruct (Z.leb_spec 128 y) as [Hbig|Hsmall].
    + destruct (continuation_byte y) as [Hb Hlow].
      simpl Uvarint_loop. unfold MaxVarintLen64.
      destruct (Z.eqb_spec i 10); [lia|].
      destruct (Z.ltb_spec (Z.lor (byte_of y) 128) 128); [lia|].
      rewrite Hlow.
      pose proof (Z.mod_pos_bound y 128 ltac:(lia)) as Hm.
      pose proof (Z.div_mod y 128 ltac:(lia)) as Hdm.
      rewrite lor_wrap64_shiftl by (try lia; nia).
      replace (7 * i + 7) with (7 * (i + 1)) by lia.
      rewrite Z.shiftr_div_pow2 by lia. change (2 ^ 7) with 128.
      assert (Hq : 0 <= y / 128) by (apply Z.div_pos; lia).
      rewrite IH by (try lia; rewrite Hnext; nia).
      f_equal; [rewrite Hnext; nia|].
      unfold len_slice. simpl List.length. lia.
    + rewrite byte_of_small by (unfold byte_ok; lia).
      simpl Uvarint_loop. unfold MaxVarintLen64.
      destruct (Z.eqb_spec i 10); [lia|].
      destruct (Z.ltb_spec y 128); [|lia].
      destruct (Z.eqb_spec i (10 - 1)); [lia|]. simpl.
      rewrite lor_wrap64_shiftl by lia. reflexivity.
Qed.

Lemma PutUvarint_nonempty n y : 0 < len_slice (PutUvarint_loop n y).
Proof.
  unfold len_slice. destruct n; simpl; [lia|].
  destruct (128 <=? y); simpl; lia.
Qed.

(** [Uvarint] inverts [PutUvarint] on every [uint64]. *)
Lemma Uvarint_PutUvarint x :
  uint64_ok x ->
  Uvarint (PutUvarint x) = (x, len_slice (PutUvarint x)) /\ 0 < len_slice (PutUvarint x).
Proof.
  unfold uint64_ok. intros Hx. split; [|apply PutUvarint_nonempty].
  unfold Uvarint, PutUvarint.
  pose proof (Uvarint_loop_PutUvarint_loop 9 x 0 0) as H.
  change (7 * 0) with 0 in H. change (2 ^ 0) with 1 in H.
  rewrite H by lia. f_equal. lia.
Qed.

(** Nine turns are all the loop of [PutUvarint] can take on a [uint64]:
    more fuel changes nothing. *)
Lemma PutUvarint_loop_enough n : forall m x,
  0 <= x < 2 ^ (7 * Z.of_nat n + 1) -> (n <= m)%nat ->
  PutUvarint_loop m x = PutUvarint_loop n x.
Proof.
  induction n as [|n IH]; intros m x Hx Hm.
  - change (2 ^ (7 * Z.of_nat 0 + 1)) with 2 in Hx.
    destruct m; simpl; [reflexivity|].
    destruct (Z.leb_spec 128 x); [lia|reflexivity].
  - destruct m as [|m]; [lia|]. simpl.
    destruct (Z.leb_spec 128 x); [|reflexivity].
    f_equal. apply IH; [|lia].
    rewrite Z.shiftr_div_pow2 by lia. change (2 ^ 7) with 128.
    split; [apply Z.div_pos; lia|].
    apply Z.div_lt_upper_bound; [lia|].
    replace (7 * Z.of_nat (S n) + 1) with (7 + (7 * Z.of_nat n + 1)) in Hx by lia.
    rewrite Z.pow_add_r in Hx by lia. change (2 ^ 7) with 128 in Hx. lia.
Qed.

Lemma PutUvarint_fuel x m :
  uint64_ok x -> (9 <= m)%nat -> PutUvarint_loop m x = PutUvarint x.
Proof.
  unfold uint64_ok. intros Hx Hm. unfold PutUvarint.
  apply PutUvarint_loop_enough; [|exact Hm].
  change (7 * Z.of_nat 9 + 1) with 64. exact Hx.
Qed.

End Varint.

Section Base64.
Import golang base64.

Lemma decodeMap_encode s : 0 <= s < 64 -> decodeMap (encode s) = s.
Proof.
  intros Hs. apply Z.eqb_eq.
  apply (forall_below 64 (fun s => decodeMap (encode s) =? s)); [|exact Hs].
  vm_compute. reflexivity.
Qed.

Lemma sextet_range x : 0 <= Z.land x 63 < 64.
Proof. rewrite land_63. apply Z.mod_pos_bound. lia. Qed.

(** One character of the alphabet moves its six bits into [dbuf]. *)
Lemma Decode_encode s src si dbuf :
  0 <= s < 64 ->
  Decode (encode s :: src) si dbuf =
    if (List.length (dbuf ++ [s]) =? 4)%nat then
      match Decode src (si + 1) [] with
      | Ok rest => Ok (assemble (dbuf ++ [s]) ++ rest)
      | Err e => Err e
      end
    else Decode src (si + 1) (dbuf ++ [s]).
Proof.
  intros Hs. simpl Decode. rewrite (decodeMap_encode s Hs).
  destruct (Z.eqb_spec s 255); [lia|]. reflexivity.
Qed.

(** The 24-bit word of three bytes, and of four six-bit values, as sums. *)
Lemma lor_bytes b0 b1 b2 :
  byte_ok b0 -> byte_ok b1 -> byte_ok b2 ->
  Z.lor (Z.lor (Z.shiftl b0 16) (Z.shiftl b1 8)) b2 = b0 * 65536 + b1 * 256 + b2.
Proof.
  unfold byte_ok. intros H0 H1 H2.
  rewrite (Z.shiftl_mul_pow2 b1) by lia.
  rewrite lor_shiftl_add by (change (2 ^ 16) with 65536; change (2 ^ 8) with 256; lia).
  rewrite (lor_add_multiple _ _ 8); change (2 ^ 16) with 65536; change (2 ^ 8) with 256;
    try lia.
  Z.div_mod_to_equations. lia.
Qed.

Lemma lor_sextets s0 s1 s2 s3 :
  0 <= s0 < 64 -> 0 <= s1 < 64 -> 0 <= s2 < 64 -> 0 <= s3 < 64 ->
  Z.lor (Z.lor (Z.lor (Z.shiftl s0 18) (Z.shiftl s1 12)) (Z.shiftl s2 6)) s3
  = s0 * 262144 + s1 * 4096 + s2 * 64 + s3.
Proof.
  intros H0 H1 H2 H3.
  rewrite (Z.shiftl_mul_pow2 s1), (Z.shiftl_mul_pow2 s2) by lia.
  rewrite lor_shiftl_add
    by (change (2 ^ 18) with 262144; change (2 ^ 12) with 4096; lia).
  change (2 ^ 18) with 262144; change (2 ^ 12) with 4096; change (2 ^ 6) with 64.
  rewrite (lor_add_multiple _ (s2 * 64) 12);
    change (2 ^ 12) with 4096; try lia; [|Z.div_mod_to_equations; lia].
  rewrite (lor_add_multiple _ s3 6);
    change (2 ^ 6) with 64; try lia.
  Z.div_mod_to_equations. lia.
Qed.

Ltac sextets_to_arith :=
  rewrite ?Z.shiftr_div_pow2, ?land_63, ?byte_of_mod by lia;
  change (2 ^ 18) with 262144; change (2 ^ 16) with 65536;
  change (2 ^ 12) with 4096; change (2 ^ 8) with 256; change (2 ^ 6) with 64.

(** A full block: four characters give back the three bytes. *)
Lemma assemble_three b0 b1 b2 :
  byte_ok b0 -> byte_ok b1 -> byte_ok b2 ->
  let val := Z.lor (Z.lor (Z.shiftl b0 16) (Z.shiftl b1 8)) b2 in
  assemble [Z.land (Z.shiftr val 18) 63; Z.land (Z.shiftr val 12) 63;
            Z.land (Z.shiftr val 6) 63; Z.land val 63] = [b0; b1; b2].
Proof.
  intros H0 H1 H2. cbv zeta. rewrite lor_bytes by assumption.
  unfold assemble. cbn [List.length Nat.sub firstn nth].
  rewrite lor_sextets by apply sextet_range.
  unfold byte_ok in *. sextets_to_arith.
  repeat f_equal; Z.div_mod_to_equations; lia.
Qed.

(** A last block of two bytes: three characters. *)
Lemma assemble_two b0 b1 :
  byte_ok b0 -> byte_ok b1 ->
  let val := Z.lor (Z.shiftl b0 16) (Z.shiftl b1 8) in
  assemble [Z.land (Z.shiftr val 18) 63; Z.land (Z.shiftr val 12) 63;
            Z.land (Z.shiftr val 6) 63] = [b0; b1].
Proof.
  intros H0 H1. cbv zeta.
  pose proof (lor_bytes b0 b1 0 H0 H1 ltac:(unfold byte_ok; lia)) as Hv.
  rewrite Z.lor_0_r, Z.add_0_r in Hv. rewrite Hv.
  unfold assemble. cbn [List.length Nat.sub firstn nth].
  rewrite lor_sextets by (try apply sextet_range; lia).
  unfold byte_ok in *. sextets_to_arith.
  repeat f_equal; Z.div_mod_to_equations; lia.
Qed.

(** A last block of one byte: two characters. *)
Lemma assemble_one b0 :
  byte_ok b0 ->
  let val := Z.shiftl b0 16 in
  assemble [Z.land (Z.shiftr val 18) 63; Z.land (Z.shiftr val 12) 63] = [b0].
Proof.
  intros H0. cbv zeta. rewrite Z.shiftl_mul_pow2 by lia.
  unfold assemble. cbn [List.length Nat.sub firstn nth].
  rewrite lor_sextets by (try apply sextet_range; lia).
  unfold byte_ok in *. sextets_to_arith.
  repeat f_equal; Z.div_mod_to_equations; lia.
Qed.

(** Induction over a slice three elements at a time, as [Encode] walks
    it. *)
Lemma list_ind3 {A} (P : list A -> Prop) :
  P [] -> (forall a, P [a]) -> (forall a b, P [a; b]) ->
  (forall a b c l, P l -> P (a :: b :: c :: l)) ->
  forall l, P l.
Proof.
  intros H0 H1 H2 H3 l.
  assert (H : P l /\ (forall a, P (a :: l)) /\ (forall a b, P (a :: b :: l))).
  { induction l as [|c l (IHa & IHb & IHc)].
    - repeat split; auto.
    - repeat split; auto. }
  apply H.
Qed.

(** [Decode] inverts [Encode] on every byte slice, from any offset. *)
Lemma Decode_Encode src :
  Forall byte_ok src -> forall si, Decode (Encode src) si [] = Ok src.
Proof.
  induction src as [| b0 | b0 b1 | b0 b1 b2 src IH] using list_ind3; intros Hall si.
  - reflexivity.
  - inversion Hall as [|? ? H0 _]; subst.
    cbn [Encode]. cbv zeta.
    rewrite !Decode_encode by apply sextet_range. cbn [app List.length Nat.eqb].
    cbn [Decode]. rewrite (assemble_one b0 H0). reflexivity.
  - inversion Hall as [|? ? H0 Hall1]; subst. inversion Hall1 as [|? ? H1 _]; subst.
    cbn [Encode]. cbv zeta.
    rewrite !Decode_encode by apply sextet_range. cbn [app List.length Nat.eqb].
    cbn [Decode]. rewrite (assemble_two b0 b1 H0 H1). reflexivity.
  - inversion Hall as [|? ? H0 Hall1]; subst. inversion Hall1 as [|? ? H1 Hall2]; subst.
    inversion Hall2 as [|? ? H2 Hall3]; subst.
    cbn [Encode]. cbv zeta.
    rewrite !Decode_encode by apply sextet_range. cbn [app List.length Nat.eqb].
    rewrite (IH Hall3). rewrite (assemble_three b0 b1 b2 H0 H1 H2). reflexivity.
Qed.

Lemma DecodeString_EncodeToString src :
  Forall byte_ok src -> DecodeString (EncodeToString src) = Ok src.
Proof.
  intros Hall. unfold DecodeString, EncodeToString.
  rewrite list_ascii_of_string_of_list_ascii. apply Decode_Encode. exact Hall.
Qed.

End Base64.

Section PortID.
Import golang binary base64 ibc.

Lemma PutUvarint_loop_bytes n : forall x, Forall byte_ok (PutUvarint_loop n x).
Proof.
  assert (Hlast : forall x, byte_ok (byte_of x)).
  { intros x. unfold byte_ok. rewrite byte_of_mod. apply Z.mod_pos_bound. lia. }
  induction n as [|n IH]; intros x; simpl.
  - constructor; [apply Hlast|constructor].
  - destruct (128 <=? x).
    + constructor; [|apply IH].
      destruct (continuation_byte x) as [Hb _]. unfold byte_ok. lia.
    + constructor; [apply Hlast|constructor].
Qed.

Lemma prefix_append (p s : string) : String.prefix p (p ++ s) = true.
Proof.
  induction p as [|a p IH]; simpl.
  - destruct s; reflexivity.
  - destruct (ascii_dec a a); [exact IH|congruence].
Qed.

(** The packed identifier [codeID<<32 + instanceID] of two 32-bit values
    and its two halves. *)
Lemma packed_contractID codeID instanceID :
  0 <= codeID <= 2 ^ 32 - 1 -> 0 <= instanceID <= 2 ^ 32 - 1 ->
  let value := Z.shiftl codeID 32 + instanceID in
  wrap64 (wrap64 (Z.shiftl codeID 32) + instanceID) = value /\
  uint64_ok value /\
  Z.shiftr value 32 = codeID /\ Z.land value 4294967295 = instanceID.
Proof.
  intros Hc Hi. cbv zeta. rewrite Z.shiftl_mul_pow2 by lia.
  change (2 ^ 32) with 4294967296 in *.
  assert (Hv : uint64_ok (codeID * 4294967296 + instanceID)).
  { unfold uint64_ok. change (2 ^ 64) with (4294967296 * 4294967296). nia. }
  split.
  { rewrite (wrap64_small (codeID * 4294967296))
      by (unfold uint64_ok in *; change (2 ^ 64) with (4294967296 * 4294967296) in *; nia).
    apply wrap64_small. exact Hv. }
  split; [exact Hv|]. split.
  - rewrite Z.shiftr_div_pow2 by lia. change (2 ^ 32) with 4294967296.
    Z.div_mod_to_equations. nia.
  - rewrite land_32. change (2 ^ 32) with 4294967296.
    Z.div_mod_to_equations. nia.
Qed.

(** C2. For every [codeID] and [instanceID] of at most 2^32 - 1, and
    whatever address [contractAddress] gives to a pair of identifiers,
    [ContractFromPortID] succeeds on [PortIDForContract codeID instanceID]
    and names the contract of exactly that pair, the halves
    [value >> 32] and [value & 0xFFFFFFFF] of the packed value
    [codeID<<32 + instanceID]. *)
Theorem ContractFromPortID_PortIDForContract
    (contractAddress : Z -> Z -> list Z) codeID instanceID :
  0 <= codeID <= 2 ^ 32 - 1 -> 0 <= instanceID <= 2 ^ 32 - 1 ->
  let value := Z.shiftl codeID 32 + instanceID in
  Z.shiftr value 32 = codeID /\
  Z.land value 4294967295 = instanceID /\
  ContractFromPortID contractAddress (PortIDForContract codeID instanceID)
    = Ok (contractAddress (Z.shiftr value 32) (Z.land value 4294967295)).
Proof.
  intros Hc Hi. cbv zeta.
  destruct (packed_contractID codeID instanceID Hc Hi) as (Hpack & Hv & Hhi & Hlo).
  cbv zeta in *. split; [exact Hhi|]. split; [exact Hlo|].
  unfold PortIDForContract. cbv zeta. rewrite Hpack.
  unfold ContractFromPortID.
  rewrite prefix_append.
  change (string_from (String.length portIDPrefix)
            (portIDPrefix ++ EncodeToString (PutUvarint (Z.shiftl codeID 32 + instanceID))))
    with (EncodeToString (PutUvarint (Z.shiftl codeID 32 + instanceID))).
  cbn [negb].
  rewrite DecodeString_EncodeToString by apply PutUvarint_loop_bytes.
  destruct (Uvarint_PutUvarint _ Hv) as [Hu Hn]. rewrite Hu.
  destruct (Z.eqb_spec (len_slice (PutUvarint (Z.shiftl codeID 32 + instanceID))) 0);
    [lia|].
  reflexivity.
Qed.

Lemma ContractFromPortID_PortIDForContract_1_1 :
  ContractFromPortID (fun codeID instanceID => [codeID; instanceID]) (PortIDForContract 1 1)
    = Ok [1; 1].
Proof.
  destruct (ContractFromPortID_PortIDForContract
              (fun codeID instanceID => [codeID; instanceID]) 1 1
              ltac:(lia) ltac:(lia)) as (_ & _ & H).
  exact H.
Defined.

(** When [ContractFromPortID] returns an error: the prefix is missing, the
    payload is not base64, or [Uvarint] read no byte ([n = 0]).  A varint
    that overflows 64 bits ([n < 0]) is not among them. *)
Lemma ContractFromPortID_error contractAddress portID :
  (exists e, ContractFromPortID contractAddress portID = Err e) <->
  String.prefix portIDPrefix portID = false \/
  (exists e, DecodeString (string_from (String.length portIDPrefix) portID) = Err e) \/
  (exists data, DecodeString (string_from (String.length portIDPrefix) portID) = Ok data
                /\ snd (Uvarint data) = 0).
Proof.
  unfold ContractFromPortID.
  destruct (String.prefix portIDPrefix portID); cbn [negb].
  2:{ split; [intros _; left; reflexivity|intros _; eexists; reflexivity]. }
  destruct (DecodeString (string_from (String.length portIDPrefix) portID)) as [data|e].
  2:{ split; [intros _; right; left; eexists; reflexivity|intros _; eexists; reflexivity]. }
  destruct (Uvarint data) as [contractID n] eqn:Hu. cbn [snd].
  destruct (Z.eqb_spec n 0) as [Hn|Hn].
  - subst n. cbn. split; [|intros _; eexists; reflexivity].
    intros _. right. right. exists data. rewrite Hu. split; reflexivity.
  - cbn. split.
    + intros [e He]. discriminate He.
    + intros [H|[[e H]|[data' [H1 H2]]]]; try discriminate.
      injection H1 as <-. rewrite Hu in H2. cbn in H2. congruence.
Qed.

(** C3 (the code accepts an overflowing varint). The port identifier
    "wasm////////////Ag" has the prefix and a base64 payload of nine bytes
    0xFF and one byte 0x02, a varint that overflows 64 bits: [Uvarint]
    reports [(0, -10)], the test [n == 0 && n <= 0] lets it pass, and
    [ContractFromPortID] returns the address of contract (0, 0) instead of
    an error. *)
Theorem ContractFromPortID_accepts_overflow (contractAddress : Z -> Z -> list Z) :
  DecodeString "////////////Ag" = Ok [255; 255; 255; 255; 255; 255; 255; 255; 255; 2] /\
  Uvarint [255; 255; 255; 255; 255; 255; 255; 255; 255; 2] = (0, -10) /\
  ContractFromPortID contractAddress "wasm////////////Ag" = Ok (contractAddress 0 0).
Proof.
  split; [vm_compute; reflexivity|]. split; [vm_compute; reflexivity|].
  unfold ContractFromPortID.
  change (String.prefix portIDPrefix "wasm////////////Ag") with true.
  change (string_from (String.length portIDPrefix) "wasm////////////Ag")
    with "////////////Ag"%string.
  cbn [negb].
  replace (DecodeString "////////////Ag")
    with (@Ok (list Z) [255; 255; 255; 255; 255; 255; 255; 255; 255; 2])
    by (vm_compute; reflexivity).
  replace (Uvarint [255; 255; 255; 255; 255; 255; 255; 255; 255; 2]) with (0, -10)
    by (vm_compute; reflexivity).
  reflexivity.
Qed.

End PortID.

Section PortBinding.
Import golang ibc.
Context {St Cap : Type}.

(** C6. When a call of [ensureIbcPort] for [(codeID, instanceID)] has
    succeeded, a second call in the context it left succeeds too and
    returns the same port identifier, the one [PortIDForContract] derives.
    The second call asks the capability authority for the capability by
    its name and does nothing else: it leaves the authority's state as it
    is and calls neither [BindPort] nor [ClaimCapability] (with a nil port
    keeper it makes no call at all). *)
Theorem ensureIbcPort_twice (k : Keeper St Cap) (ctx ctx1 : sdkContext St)
    (codeID instanceID : Z) (portID : string) :
  ensureIbcPort k ctx codeID instanceID = Ret ((portID, None), ctx1) ->
  portID = PortIDForContract codeID instanceID /\
  ensureIbcPort k ctx1 codeID instanceID =
    Ret ((portID, None),
         {| authority := authority ctx1;
            calls := calls ctx1 ++
                     match portKeeper k with
                     | Some _ => [CallGetCapability (PortPath portID)]
                     | None => []
                     end |}).
Proof.
  unfold ensureIbcPort. destruct (portKeeper k) as [pk|] eqn:Hpk.
  - cbv zeta.
    destruct (GetCapability (scopedKeeper k) (authority ctx)
                (PortPath (PortIDForContract codeID instanceID))) as [cap|] eqn:Hget.
    + intros [= <- <-]. split; [reflexivity|].
      cbn [authority logged]. rewrite Hget. reflexivity.
    + unfold bindIbcPort. rewrite Hpk. cbn [authority logged].
      destruct (BindPort pk (authority ctx) (PortIDForContract codeID instanceID))
        as [[cap st']|p]; [|discriminate].
      unfold Keeper_ClaimCapability. cbn [authority logged].
      destruct (ClaimCapability (scopedKeeper k) st' cap
                  (PortPath (PortIDForContract codeID instanceID))) as [st''|e] eqn:Hclaim;
        [|discriminate].
      intros [= <- <-]. split; [reflexivity|].
      cbn [authority calls logged].
      destruct (claimed_is_held (scopedKeeper k) _ _ _ _ Hclaim) as [cap' Hheld].
      rewrite Hheld. reflexivity.
  - intros [= <- <-]. split; [reflexivity|].
    rewrite app_nil_r. destruct ctx; reflexivity.
Qed.

End PortBinding.

Section TableAuthority.
Import golang ibc.

Lemma ensureIbcPort_twice_on_table :
  ensureIbcPort tableKeeper emptyContext 1 1
  = Ret (("wasmgYCAgBA"%string, None),
         {| authority := {| boundPorts := ["wasmgYCAgBA"%string];
                            held := [("ports/wasmgYCAgBA"%string, 0%nat)] |};
            calls := [CallGetCapability "ports/wasmgYCAgBA";
                      CallBindPort "wasmgYCAgBA";
                      CallClaimCapability "ports/wasmgYCAgBA"] |}) /\
  ensureIbcPort tableKeeper
    {| authority := {| boundPorts := ["wasmgYCAgBA"%string];
                       held := [("ports/wasmgYCAgBA"%string, 0%nat)] |};
       calls := [CallGetCapability "ports/wasmgYCAgBA";
                 CallBindPort "wasmgYCAgBA";
                 CallClaimCapability "ports/wasmgYCAgBA"] |} 1 1
  = Ret (("wasmgYCAgBA"%string, None),
         {| authority := {| boundPorts := ["wasmgYCAgBA"%string];
                            held := [("ports/wasmgYCAgBA"%string, 0%nat)] |};
            calls := [CallGetCapability "ports/wasmgYCAgBA";
                      CallBindPort "wasmgYCAgBA";
                      CallClaimCapability "ports/wasmgYCAgBA";
                      CallGetCapability "ports/wasmgYCAgBA"] |}).
Proof.
  assert (H : ensureIbcPort tableKeeper emptyContext 1 1
    = Ret (("wasmgYCAgBA"%string, None),
         {| authority := {| boundPorts := ["wasmgYCAgBA"%string];
                            held := [("ports/wasmgYCAgBA"%string, 0%nat)] |};
            calls := [CallGetCapability "ports/wasmgYCAgBA";
                      CallBindPort "wasmgYCAgBA";
                      CallClaimCapability "ports/wasmgYCAgBA"] |}))
    by (vm_compute; reflexivity).
  split; [exact H|].
  destruct (ensureIbcPort_twice tableKeeper emptyContext _ 1 1 _ H) as [_ H2].
  exact H2.
Defined.

Lemma existsb_eqb_head (p : string) (l : list string) :
  existsb (String.eqb p) (p :: l) = true.
Proof. simpl. rewrite String.eqb_refl. reflexivity. Qed.

(** [bindIbcPort] itself is not safe to call twice: on the table authority
    a second call for a port that the first one bound panics in
    [BindPort]. *)
Lemma bindIbcPort_twice_panics ctx ctx1 portID err :
  bindIbcPort tableKeeper ctx portID = Ret (err, ctx1) ->
  bindIbcPort tableKeeper ctx1 portID = Panic (PanicMsg "port is already bound").
Proof.
  unfold bindIbcPort. cbn [portKeeper tableKeeper BindPort].
  unfold table_BindPort at 1.
  destruct (existsb (String.eqb portID) (boundPorts (authority ctx))); [discriminate|].
  unfold Keeper_ClaimCapability.
  cbn [scopedKeeper tableKeeper tableScopedKeeper ClaimCapability authority logged].
  unfold table_ClaimCapability at 1. cbn [held boundPorts].
  destruct (lookup_held (PortPath portID) (held (authority ctx)));
    intros [= <- <-]; cbn [authority logged]; unfold table_BindPort; cbn [boundPorts];
    rewrite existsb_eqb_head; reflexivity.
Qed.

End TableAuthority.

Section Counters.
Import golang relay_pingpong.

Lemma shiftr_byte_range v k : 0 <= k -> byte_ok (byte_of (Z.shiftr v k)).
Proof.
  intros Hk. unfold byte_ok. rewrite byte_of_mod. apply Z.mod_pos_bound. lia.
Qed.

Lemma lor_acc_shiftl acc b k :
  0 <= k -> 0 <= acc < 2 ^ k -> Z.lor acc (Z.shiftl b k) = acc + b * 2 ^ k.
Proof.
  intros Hk Hacc. rewrite Z.lor_comm, lor_shiftl_add by assumption. lia.
Qed.

(** Reading eight big-endian bytes gives back the [uint64] they were
    written from. *)
Lemma BigEndianToUint64_Uint64ToBigEndian v :
  uint64_ok v -> BigEndianToUint64 (Uint64ToBigEndian v) = Ret v.
Proof.
  unfold uint64_ok. intros Hv. unfold Uint64ToBigEndian, BigEndianToUint64. f_equal.
  rewrite !byte_of_mod, !Z.shiftr_div_pow2 by lia.
  set (b0 := (v / 2 ^ 56) mod 256). set (b1 := (v / 2 ^ 48) mod 256).
  set (b2 := (v / 2 ^ 40) mod 256). set (b3 := (v / 2 ^ 32) mod 256).
  set (b4 := (v / 2 ^ 24) mod 256). set (b5 := (v / 2 ^ 16) mod 256).
  set (b6 := (v / 2 ^ 8) mod 256). set (b7 := v mod 256).
  assert (H0 : 0 <= b0 < 256) by (apply Z.mod_pos_bound; lia).
  assert (H1 : 0 <= b1 < 256) by (apply Z.mod_pos_bound; lia).
  assert (H2 : 0 <= b2 < 256) by (apply Z.mod_pos_bound; lia).
  assert (H3 : 0 <= b3 < 256) by (apply Z.mod_pos_bound; lia).
  assert (H4 : 0 <= b4 < 256) by (apply Z.mod_pos_bound; lia).
  assert (H5 : 0 <= b5 < 256) by (apply Z.mod_pos_bound; lia).
  assert (H6 : 0 <= b6 < 256) by (apply Z.mod_pos_bound; lia).
  assert (H7 : 0 <= b7 < 256) by (apply Z.mod_pos_bound; lia).
  change (2 ^ 8) with 256 in *; change (2 ^ 16) with 65536 in *;
  change (2 ^ 24) with 16777216 in *; change (2 ^ 32) with 4294967296 in *;
  change (2 ^ 40) with 1099511627776 in *;
  change (2 ^ 48) with 281474976710656 in *;
  change (2 ^ 56) with 72057594037927936 in *.
  rewrite (lor_acc_shiftl b7 b6 8) by (change (2 ^ 8) with 256; lia).
  rewrite (lor_acc_shiftl _ b5 16) by (change (2 ^ 8) with 256; change (2 ^ 16) with 65536; lia).
  rewrite (lor_acc_shiftl _ b4 24)
    by (change (2 ^ 8) with 256; change (2 ^ 16) with 65536;
        change (2 ^ 24) with 16777216; lia).
  rewrite (lor_acc_shiftl _ b3 32)
    by (change (2 ^ 8) with 256; change (2 ^ 16) with 65536;
        change (2 ^ 24) with 16777216; change (2 ^ 32) with 4294967296; lia).
  rewrite (lor_acc_shiftl _ b2 40)
    by (change (2 ^ 8) with 256; change (2 ^ 16) with 65536;
        change (2 ^ 24) with 16777216; change (2 ^ 32) with 4294967296;
        change (2 ^ 40) with 1099511627776; lia).
  rewrite (lor_acc_shiftl _ b1 48)
    by (change (2 ^ 8) with 256; change (2 ^ 16) with 65536;
        change (2 ^ 24) with 16777216; change (2 ^ 32) with 4294967296;
        change (2 ^ 40) with 1099511627776; change (2 ^ 48) with 281474976710656; lia).
  rewrite (lor_acc_shiftl _ b0 56)
    by (change (2 ^ 8) with 256; change (2 ^ 16) with 65536;
        change (2 ^ 24) with 16777216; change (2 ^ 32) with 4294967296;
        change (2 ^ 40) with 1099511627776; change (2 ^ 48) with 281474976710656;
        change (2 ^ 56) with 72057594037927936; lia).
  subst b0 b1 b2 b3 b4 b5 b6 b7.
  change (2 ^ 8) with 256 in *; change (2 ^ 16) with 65536 in *;
  change (2 ^ 24) with 16777216 in *; change (2 ^ 32) with 4294967296 in *;
  change (2 ^ 40) with 1099511627776 in *;
  change (2 ^ 48) with 281474976710656 in *;
  change (2 ^ 56) with 72057594037927936 in *;
  change (2 ^ 64) with 18446744073709551616 in *.
  Z.div_mod_to_equations. lia.
Qed.

Lemma wrap64_range z : uint64_ok (wrap64 z).
Proof. unfold uint64_ok, wrap64. apply Z.mod_pos_bound. lia. Qed.

Lemma readCounter_slot (store : Store) key :
  uint64_slot store key ->
  exists count, uint64_ok count /\ readCounter store key = Ret count.
Proof.
  intros Hslot. unfold readCounter. destruct (store !! key) as [bz|] eqn:Hget.
  - destruct (Hslot bz Hget) as (v & Hv & ->).
    exists v. split; [exact Hv|]. apply BigEndianToUint64_Uint64ToBigEndian. exact Hv.
  - exists 0. split; [unfold uint64_ok; lia|reflexivity].
Qed.

Lemma counter_at_read (store : Store) key n :
  counter_at store key n -> readCounter store key = Ret n.
Proof.
  intros [Hn [Hget | [Hget ->]]]; unfold readCounter; rewrite Hget.
  - apply BigEndianToUint64_Uint64ToBigEndian. exact Hn.
  - reflexivity.
Qed.

Lemma counter_at_insert_ne (store : Store) k x key n :
  k <> key -> counter_at store key n -> counter_at (<[k := x]> store) key n.
Proof.
  intros Hne [Hn Hget]. split; [exact Hn|].
  rewrite lookup_insert_ne by exact Hne. exact Hget.
Qed.

Lemma incrementCounter_from (store : Store) key count :
  readCounter store key = Ret count ->
  incrementCounter key store
  = Ret (wrap64 (count + 1), <[key := Uint64ToBigEndian (wrap64 (count + 1))]> store).
Proof. intros Hread. unfold incrementCounter. rewrite Hread. reflexivity. Qed.

Lemma uint64_slot_insert (store : Store) k v key :
  uint64_ok v -> uint64_slot store key ->
  uint64_slot (<[k := Uint64ToBigEndian v]> store) key.
Proof.
  intros Hv Hslot bz. destruct (decide (k = key)) as [->|Hne].
  - rewrite lookup_insert_eq. intros [= <-]. exists v. split; [exact Hv|reflexivity].
  - rewrite lookup_insert_ne by exact Hne. apply Hslot.
Qed.

Lemma QueryState_insert (store : Store) key v :
  uint64_ok v -> QueryState (<[key := Uint64ToBigEndian v]> store) key = Ret v.
Proof.
  intros Hv. unfold QueryState. rewrite lookup_insert_eq.
  apply BigEndianToUint64_Uint64ToBigEndian. exact Hv.
Qed.

Lemma uint64_slot_insert_ne (store : Store) k x key :
  k <> key -> uint64_slot store key -> uint64_slot (<[k := x]> store) key.
Proof.
  intros Hne Hslot bz. rewrite lookup_insert_ne by exact Hne. apply Hslot.
Qed.

Lemma Uint64ToBigEndian_inj a b :
  uint64_ok a -> uint64_ok b -> Uint64ToBigEndian a = Uint64ToBigEndian b -> a = b.
Proof.
  intros Ha Hb Heq.
  pose proof (BigEndianToUint64_Uint64ToBigEndian a Ha) as H1.
  rewrite Heq, (BigEndianToUint64_Uint64ToBigEndian b Hb) in H1. congruence.
Qed.

End Counters.

Section PingPong.
Import golang relay_pingpong.
Context `{J : JSON}.
Context (Quote : string -> string).

(** C9. For every acknowledgement whose original payload and whose
    acknowledgement payload decode, [OnIBCPacketAcknowledgement] returns
    without error and its only effect on the store is one increment of the
    "confBalls" counter: a store that holds the count [confirmed] under
    "confBalls" (or nothing, with [confirmed = 0]) comes out holding
    [confirmed + 1] (modulo 2^64, as a [uint64] does), which is what
    [QueryState] then reads.  [ack] is arbitrary: the result is the same
    when it reports success ([Success] set) and when it reports an
    application error. *)
Theorem OnIBCPacketAcknowledgement_confirms (p : player)
    (packetAck : IBCAcknowledgement) (store : Store)
    (sentBall : hit) (ack : hitAcknowledgement) (confirmed : Z) :
  Unmarshal_hit (Data (OriginalPacket packetAck)) = Ok sentBall ->
  Unmarshal_ack (Acknowledgement packetAck) = Ok ack ->
  uint64_ok confirmed ->
  store !! confirmedBallsCountKey = Some (Uint64ToBigEndian confirmed) \/
  (store !! confirmedBallsCountKey = None /\ confirmed = 0) ->
  OnIBCPacketAcknowledgement p packetAck store
  = Ret ((Some PacketAcknowledged, 0, None),
         <[confirmedBallsCountKey := Uint64ToBigEndian (wrap64 (confirmed + 1))]> store) /\
  (store !! confirmedBallsCountKey <> None ->
   QueryState store confirmedBallsCountKey = Ret confirmed) /\
  QueryState
    (<[confirmedBallsCountKey := Uint64ToBigEndian (wrap64 (confirmed + 1))]> store)
    confirmedBallsCountKey = Ret (wrap64 (confirmed + 1)) /\
  (confirmed < 2 ^ 64 - 1 -> wrap64 (confirmed + 1) = confirmed + 1).
Proof.
  intros Hball Hack Hc Hheld.
  pose proof (counter_at_read store _ _ (conj Hc Hheld)) as Hread.
  split.
  - unfold OnIBCPacketAcknowledgement. rewrite Hball, Hack. cbv zeta.
    rewrite (incrementCounter_from _ _ _ Hread). reflexivity.
  - split.
    + intros Hsome. unfold QueryState.
      destruct Hheld as [Hget | [Hget _]]; [|congruence].
      rewrite Hget. apply BigEndianToUint64_Uint64ToBigEndian. exact Hc.
    + split.
      * apply QueryState_insert. apply wrap64_range.
      * intros Hlt. apply wrap64_small. unfold uint64_ok in *. lia.
Qed.

Lemma exceededLimit_insert_ne (store : Store) k x c :
  k <> maxValueKey -> exceededLimit (<[k := x]> store) c = exceededLimit store c.
Proof. intros Hne. unfold exceededLimit. rewrite lookup_insert_ne by exact Hne. reflexivity. Qed.

(** The test against "max-value": either no limit is exceeded, or the
    stored limit [m] is below the count. *)
Lemma exceededLimit_slot (store : Store) c :
  uint64_slot store maxValueKey ->
  (exceededLimit store c = Ret None /\
   (store !! maxValueKey = None \/
    exists m, uint64_ok m /\ store !! maxValueKey = Some (Uint64ToBigEndian m) /\ c <= m))
  \/
  (exists m, uint64_ok m /\ store !! maxValueKey = Some (Uint64ToBigEndian m) /\ m < c /\
             exceededLimit store c = Ret (Some m)).
Proof.
  intros Hslot. unfold exceededLimit.
  destruct (store !! maxValueKey) as [maxVal|] eqn:Hget.
  - destruct (Hslot maxVal Hget) as (m & Hm & ->).
    rewrite (BigEndianToUint64_Uint64ToBigEndian m Hm). cbn [obind].
    destruct (Z.ltb_spec m c).
    + right. exists m. auto.
    + left. split; [reflexivity|]. right. exists m. auto.
  - left. split; [reflexivity|]. left. reflexivity.
Qed.

(** The player on the other side: "pong" for "ping" and "ping" for
    "pong". *)
Lemma counterParty_actor s other :
  (s = ping /\ other = pong) \/ (s = pong /\ other = ping) ->
  counterParty Quote s = Ret other.
Proof. intros [[-> ->] | [-> ->]]; reflexivity. Qed.

(** C8. For every packet received by a ping or pong player over a store
    whose counters are well formed, [OnIBCPacketReceive] returns a response
    with one acknowledgement and a nil error.  A payload that does not
    decode gives an acknowledgement that carries the decoding error, no
    message, and leaves the store as it was.  The value carried is the
    entry of the other player ("pong" for "ping", "ping" for "pong") in
    the payload, 0 when it has none: a value above the stored "max-value"
    gives an acknowledgement that carries the error message and no
    message.  Otherwise the acknowledgement is the success acknowledgement
    of the ball and there is exactly one message, a packet sent on the
    channel the ball came from. *)
Theorem OnIBCPacketReceive_acknowledges (p : player) (other : string)
    (packet : IBCPacket) (store : Store) :
  (actor p = ping /\ other = pong) \/ (actor p = pong /\ other = ping) ->
  receive_slots store ->
  exists resp store',
    OnIBCPacketReceive Quote p packet store = Ret ((Some resp, 0, None), store') /\
    (forall err, Unmarshal_hit (Data packet) = Err err ->
       ReceiveAcknowledgement resp
         = Marshal_ack {| Error := Error_text err; Success := None |} /\
       Messages resp = [] /\ store' = store) /\
    (forall ball m,
       Unmarshal_hit (Data packet) = Ok ball ->
       uint64_ok m -> store !! maxValueKey = Some (Uint64ToBigEndian m) ->
       m < default 0 (ball !! other) ->
       ReceiveAcknowledgement resp
         = Marshal_ack
             {| Error := "max value exceeded: " +:+ pretty m +:+ " got "
                         +:+ pretty (default 0 (ball !! other));
                Success := None |} /\
       Messages resp = []) /\
    (forall ball,
       Unmarshal_hit (Data packet) = Ok ball ->
       (store !! maxValueKey = None \/
        exists m, uint64_ok m /\ store !! maxValueKey = Some (Uint64ToBigEndian m) /\
                  default 0 (ball !! other) <= m) ->
       ReceiveAcknowledgement resp = Marshal_ack {| Error := ""; Success := Some ball |} /\
       exists msg, Messages resp = [MsgIBC (SendPacket msg)] /\
                   ChannelID msg = Channel (Source packet)).
Proof.
  intros Hactor (Hrecv & Hlast & Hsent & Hmax).
  unfold OnIBCPacketReceive.
  destruct (Unmarshal_hit (Data packet)) as [ball|err] eqn:Hdecode.
  2:{ eexists _, store. split; [reflexivity|]. cbn [ReceiveAcknowledgement Messages].
      split; [intros err' [= <-]; auto|]. split; intros; discriminate. }
  destruct (readCounter_slot store _ Hrecv) as (received & _ & Hread1).
  rewrite (incrementCounter_from _ _ _ Hread1). cbn [obind].
  rewrite (counterParty_actor _ _ Hactor). cbn [obind].
  cbv zeta. set (otherCount := default 0 (ball !! other)).
  set (store1 := <[receivedBallsCountKey := Uint64ToBigEndian (wrap64 (received + 1))]> store).
  set (store2 := <[lastBallReceivedKey := Uint64ToBigEndian otherCount]> store1).
  assert (Hlimit : exceededLimit store2 otherCount = exceededLimit store otherCount).
  { subst store2 store1. rewrite !exceededLimit_insert_ne by discriminate. reflexivity. }
  rewrite Hlimit.
  destruct (exceededLimit_slot store otherCount Hmax)
    as [[Hnone Hwithin] | (m & Hm & Hstored & Hlt & Hsome)].
  - rewrite Hnone. cbn [obind].
    assert (Hlast2 : uint64_slot store2 lastBallSentKey).
    { subst store2 store1. do 2 (apply uint64_slot_insert_ne; [discriminate|]). exact Hlast. }
    destruct (readCounter_slot store2 _ Hlast2) as (sent & _ & Hread2).
    rewrite (incrementCounter_from _ _ _ Hread2). cbn [obind].
    set (store3 := <[lastBallSentKey := Uint64ToBigEndian (wrap64 (sent + 1))]> store2).
    assert (Hsent3 : uint64_slot store3 sentBallsCountKey).
    { subst store3 store2 store1. do 3 (apply uint64_slot_insert_ne; [discriminate|]).
      exact Hsent. }
    destruct (readCounter_slot store3 _ Hsent3) as (balls & _ & Hread3).
    rewrite (incrementCounter_from _ _ _ Hread3). cbn [obind].
    eexists _, _. split; [reflexivity|]. cbn [ReceiveAcknowledgement Messages].
    split; [intros; discriminate|]. split.
    + intros ball' m' [= <-] Hm' Hstored' Hlt'. exfalso.
      fold otherCount in Hlt'.
      destruct Hwithin as [Habsent | (m & Hm & Hstored & Hle)]; [congruence|].
      assert (Heq : Uint64ToBigEndian m = Uint64ToBigEndian m') by congruence.
      pose proof (Uint64ToBigEndian_inj _ _ Hm Hm' Heq). lia.
    + intros ball' [= <-] _. split; [reflexivity|].
      eexists. split; reflexivity.
  - rewrite Hsome. cbn [obind].
    eexists _, _. split; [reflexivity|]. cbn [ReceiveAcknowledgement Messages].
    split; [intros; discriminate|]. split.
    + intros ball' m' [= <-] Hm' Hstored' Hlt'.
      fold otherCount.
      assert (Heq : Uint64ToBigEndian m = Uint64ToBigEndian m') by congruence.
      pose proof (Uint64ToBigEndian_inj _ _ Hm Hm' Heq). subst m'.
      split; reflexivity.
    + intros ball' [= <-] [Habsent | (m' & Hm' & Hstored' & Hle)];
        [congruence|].
      exfalso. fold otherCount in Hle.
      assert (Heq : Uint64ToBigEndian m = Uint64ToBigEndian m') by congruence.
      pose proof (Uint64ToBigEndian_inj _ _ Hm Hm' Heq). lia.
Qed.

(** One call of [OnIBCChannelConnect] appends the pair of the channel to
    what is recorded, whatever is recorded. *)
Lemma OnIBCChannelConnect_appends (p : player) (channel : IBCChannel) (store : Store)
    (l : list connectedChannelsModel) :
  loadCounterparties store = Ret l ->
  let pair := {| Our := Endpoint channel; Their := CounterpartyEndpoint channel |} in
  let store1 := <[ibcEndpointsKey := Marshal_endpoints (l ++ [pair])]> store in
  OnIBCChannelConnect p channel store = Ret ((Some ChannelConnected, 0, None), store1) /\
  loadCounterparties store1 = Ret (l ++ [pair]).
Proof.
  intros Hload. cbv zeta. split.
  - unfold OnIBCChannelConnect, storeEndpoint. rewrite Hload. reflexivity.
  - unfold loadCounterparties. rewrite lookup_insert_eq.
    rewrite Unmarshal_Marshal_endpoints. reflexivity.
Qed.

Lemma pairsOfChannel_app channelID l1 l2 :
  pairsOfChannel channelID (l1 ++ l2)
  = pairsOfChannel channelID l1 ++ pairsOfChannel channelID l2.
Proof. unfold pairsOfChannel. apply List.filter_app. Qed.

(** C7, as amended. [OnIBCChannelConnect] appends without looking for the
    channel: two calls for the same channel leave two more pairs recorded
    for its local channel identifier than there were, both equal to the
    pair of the channel. *)
Theorem OnIBCChannelConnect_twice (p : player) (channel : IBCChannel) (store : Store)
    (l : list connectedChannelsModel) :
  loadCounterparties store = Ret l ->
  exists store1 store2,
    OnIBCChannelConnect p channel store = Ret ((Some ChannelConnected, 0, None), store1) /\
    OnIBCChannelConnect p channel store1 = Ret ((Some ChannelConnected, 0, None), store2) /\
    loadCounterparties store2
    = Ret (l ++ [{| Our := Endpoint channel; Their := CounterpartyEndpoint channel |};
                 {| Our := Endpoint channel; Their := CounterpartyEndpoint channel |}]) /\
    forall recorded, loadCounterparties store2 = Ret recorded ->
      List.length (pairsOfChannel (Channel (Endpoint channel)) recorded)
      = (List.length (pairsOfChannel (Channel (Endpoint channel)) l) + 2)%nat.
Proof.
  intros Hload.
  destruct (OnIBCChannelConnect_appends p channel store l Hload) as [Hfirst Hload1].
  destruct (OnIBCChannelConnect_appends p channel _ _ Hload1) as [Hsecond Hload2].
  cbv zeta in *. rewrite <- app_assoc in Hload2, Hsecond. cbn [app] in Hload2, Hsecond.
  eexists _, _. split; [exact Hfirst|]. split; [exact Hsecond|].
  split; [exact Hload2|].
  intros recorded Hrec. rewrite Hload2 in Hrec. injection Hrec as <-.
  rewrite pairsOfChannel_app, length_app. f_equal.
  unfold pairsOfChannel. cbn [List.filter Our Channel].
  rewrite String.eqb_refl. reflexivity.
Qed.

End PingPong.

Section PingPongRuns.
Import golang relay_pingpong.

Lemma empty_slot key : uint64_slot ∅ key.
Proof. intros bz Hbz. rewrite lookup_empty in Hbz. discriminate. Qed.

Lemma loadCounterparties_empty `{J : JSON} : loadCounterparties ∅ = Ret [].
Proof. unfold loadCounterparties. rewrite lookup_empty. reflexivity. Qed.

Lemma OnIBCChannelConnect_twice_from_empty :
  exists store2,
    @loadCounterparties wireJSON store2 = Ret [pair0; pair0] /\
    exists store1,
      @OnIBCChannelConnect wireJSON pingPlayer channel0 ∅
        = Ret ((Some ChannelConnected, 0, None), store1) /\
      @OnIBCChannelConnect wireJSON pingPlayer channel0 store1
        = Ret ((Some ChannelConnected, 0, None), store2).
Proof.
  destruct (@OnIBCChannelConnect_twice wireJSON pingPlayer channel0 ∅ []
              loadCounterparties_empty)
    as (store1 & store2 & H1 & H2 & H3 & _).
  exists store2. split; [exact H3|]. exists store1. split; [exact H1|exact H2].
Defined.

(** C7 as stated fails: after two calls for "channel-0" on an empty store,
    two pairs are recorded for "channel-0", not one. *)
Lemma OnIBCChannelConnect_replay_duplicates :
  exists store1 store2,
    @OnIBCChannelConnect wireJSON pingPlayer channel0 ∅
      = Ret ((Some ChannelConnected, 0, None), store1) /\
    @OnIBCChannelConnect wireJSON pingPlayer channel0 store1
      = Ret ((Some ChannelConnected, 0, None), store2) /\
    @loadCounterparties wireJSON store2 = Ret [pair0; pair0] /\
    List.length (pairsOfChannel "channel-0" [pair0; pair0]) = 2%nat /\
    List.length (pairsOfChannel "channel-0" [pair0; pair0]) <> 1%nat.
Proof.
  destruct (@OnIBCChannelConnect_appends wireJSON pingPlayer channel0 ∅ []
              loadCounterparties_empty)
    as [H1 Hload1].
  destruct (@OnIBCChannelConnect_appends wireJSON pingPlayer channel0 _ _ Hload1)
    as [H2 Hload2].
  cbv zeta in *. eexists _, _. split; [exact H1|]. split; [exact H2|].
  split; [exact Hload2|]. split; [reflexivity|]. cbn. discriminate.
Qed.

Lemma receive_slots_storeMax50 : receive_slots storeMax50.
Proof.
  repeat split; try (apply uint64_slot_insert_ne; [discriminate|apply empty_slot]).
  apply uint64_slot_insert; [unfold uint64_ok; lia|apply empty_slot].
Qed.

Lemma receive_slots_empty : receive_slots ∅.
Proof. repeat split; apply empty_slot. Qed.

Lemma OnIBCPacketReceive_acknowledges_ping :
  (exists resp store',
     @OnIBCPacketReceive wireJSON asciiQuote pongPlayer pingPacket storeMax50
       = Ret ((Some resp, 0, None), store') /\
     ReceiveAcknowledgement resp
       = @Marshal_ack wireJSON
           {| Error := "max value exceeded: 50 got 100"; Success := None |} /\
     Messages resp = []) /\
  (exists resp store',
     @OnIBCPacketReceive wireJSON asciiQuote pongPlayer pingPacket ∅
       = Ret ((Some resp, 0, None), store') /\
     ReceiveAcknowledgement resp
       = @Marshal_ack wireJSON {| Error := ""; Success := Some (<[ping := 100]> ∅) |} /\
     exists msg, Messages resp = [MsgIBC (SendPacket msg)] /\
                 ChannelID msg = "channel-0"%string).
Proof.
  split.
  - destruct (@OnIBCPacketReceive_acknowledges wireJSON asciiQuote pongPlayer ping
                pingPacket storeMax50 (or_intror (conj eq_refl eq_refl))
                receive_slots_storeMax50)
      as (resp & store' & Hrun & _ & Hrefuse & _).
    assert (Hm : uint64_ok 50) by (unfold uint64_ok; lia).
    assert (Hstored : storeMax50 !! maxValueKey = Some (Uint64ToBigEndian 50))
      by apply lookup_insert_eq.
    assert (Hlt : 50 < default 0 ((<[ping := 100]> ∅ : hit) !! ping)).
    { rewrite lookup_insert_eq. cbn. lia. }
    destruct (Hrefuse (<[ping := 100]> ∅) 50 eq_refl Hm Hstored Hlt) as [Hack Hmsgs].
    exists resp, store'. split; [exact Hrun|]. split; [|exact Hmsgs].
    rewrite Hack. rewrite lookup_insert_eq. reflexivity.
  - destruct (@OnIBCPacketReceive_acknowledges wireJSON asciiQuote pongPlayer ping
                pingPacket ∅ (or_intror (conj eq_refl eq_refl)) receive_slots_empty)
      as (resp & store' & Hrun & _ & _ & Hserve).
    destruct (Hserve (<[ping := 100]> ∅) eq_refl (or_introl (lookup_empty _)))
      as (Hack & msg & Hmsgs & Hchan).
    exists resp, store'. split; [exact Hrun|]. split; [exact Hack|].
    exists msg. split; [exact Hmsgs|exact Hchan].
Defined.

Lemma OnIBCPacketAcknowledgement_confirms_ping :
  @OnIBCPacketAcknowledgement wireJSON pingPlayer pingAcknowledged storeMidGame
  = Ret ((Some PacketAcknowledged, 0, None),
         <[confirmedBallsCountKey := Uint64ToBigEndian 4]> storeMidGame) /\
  @OnIBCPacketAcknowledgement wireJSON pingPlayer pingRefused storeMidGame
  = Ret ((Some PacketAcknowledged, 0, None),
         <[confirmedBallsCountKey := Uint64ToBigEndian 4]> storeMidGame) /\
  QueryState storeMidGame confirmedBallsCountKey = Ret 3 /\
  QueryState (<[confirmedBallsCountKey := Uint64ToBigEndian 4]> storeMidGame)
    confirmedBallsCountKey = Ret 4.
Proof.
  assert (Hc : uint64_ok 3) by (unfold uint64_ok; lia).
  assert (Hheld : storeMidGame !! confirmedBallsCountKey = Some (Uint64ToBigEndian 3)).
  { unfold storeMidGame. rewrite lookup_insert_ne by discriminate. apply lookup_insert_eq. }
  destruct (@OnIBCPacketAcknowledgement_confirms wireJSON pingPlayer pingAcknowledged
              storeMidGame (<[ping := 100]> ∅)
              {| Error := ""; Success := Some (<[ping := 100]> ∅) |} 3
              eq_refl eq_refl Hc (or_introl Hheld))
    as (Hrun & Hbefore & Hafter & _).
  destruct (@OnIBCPacketAcknowledgement_confirms wireJSON pingPlayer pingRefused
              storeMidGame (<[ping := 100]> ∅)
              {| Error := "max"; Success := None |} 3
              eq_refl eq_refl Hc (or_introl Hheld))
    as (Hrun' & _).
  split; [exact Hrun|]. split; [exact Hrun'|]. split; [|exact Hafter].
  apply Hbefore. rewrite Hheld. discriminate.
Defined.

End PingPongRuns.


(* ===================================================================== *)
(** * Part III: further properties of the embedded code                    *)
(* ===================================================================== *)

Section GasRegisterMore.
Import golang gas_register.

Lemma attributeBytes_app evts more :
  attributeBytes (evts ++ more) = attributeBytes evts + attributeBytes more.
Proof. induction evts as [|l evts IH]; simpl; [lia|]. rewrite IH. lia. Qed.

Lemma slice_fits_app_l evts more : slice_fits (evts ++ more) -> slice_fits evts.
Proof.
  unfold slice_fits, len_slice. rewrite length_app, attributeBytes_app.
  intros [Hlen Hbytes]. pose proof (attributeBytes_nonneg more). split; lia.
Qed.

Lemma exactEventCost_nonneg g evts : GasRegister_ok g -> 0 <= exactEventCost g evts.
Proof.
  intros Hg. unfold exactEventCost, billableBytes, len_slice.
  pose proof (eventAttributeDataCost_ok g Hg) as Hd.
  pose proof (eventPerAttributeCost_ok g Hg) as Hp. unfold uint64_ok in *. nia.
Qed.

Lemma exactEventCost_app g evts more :
  GasRegister_ok g -> exactEventCost g evts <= exactEventCost g (evts ++ more).
Proof.
  intros Hg. unfold exactEventCost, billableBytes, len_slice.
  rewrite attributeBytes_app, length_app.
  pose proof (attributeBytes_nonneg more).
  pose proof (eventAttributeDataCost_ok g Hg) as Hd.
  pose proof (eventPerAttributeCost_ok g Hg) as Hp. unfold uint64_ok in *. nia.
Qed.

(** Whenever [EventCosts] returns, the value is the exact cost
    [billableBytes * eventAttributeDataCost + count * eventPerAttributeCost],
    a number below 2^64: no returned value is wrapped or truncated. *)
Theorem EventCosts_returns_exact g evts c :
  GasRegister_ok g -> slice_fits evts ->
  evts <> [] \/ 0 <= eventAttributeDataFreeTier g ->
  EventCosts g evts = Ret c ->
  c = billableBytes g evts * eventAttributeDataCost g
      + len_slice evts * eventPerAttributeCost g /\
  0 <= c < 2 ^ 64.
Proof.
  intros Hg Hfit Hcase. rewrite EventCosts_exact by assumption.
  pose proof (exactEventCost_nonneg g evts Hg) as Hnn. unfold exactEventCost in *.
  destruct (Z.ltb_spec
    (billableBytes g evts * eventAttributeDataCost g
     + len_slice evts * eventPerAttributeCost g) (2 ^ 64)); [|discriminate].
  intros [= <-]. split; [reflexivity|lia].
Qed.

Lemma EventCosts_returns_exact_default :
  EventCosts DefaultGasRegister [{| Key := "action"; Value := "transfer" |}] = Ret 10 /\
  10 = billableBytes DefaultGasRegister [{| Key := "action"; Value := "transfer" |}]
         * eventAttributeDataCost DefaultGasRegister
       + len_slice [{| Key := "action"; Value := "transfer" |}]
         * eventPerAttributeCost DefaultGasRegister.
Proof.
  assert (H : EventCosts DefaultGasRegister [{| Key := "action"; Value := "transfer" |}] = Ret 10)
    by (vm_compute; reflexivity).
  split; [exact H|].
  assert (Hfit : slice_fits [{| Key := "action"; Value := "transfer" |}])
    by (split; vm_compute; reflexivity).
  assert (Hne : [{| Key := "action"; Value := "transfer" |}] <> []
                \/ 0 <= eventAttributeDataFreeTier DefaultGasRegister)
    by (left; discriminate).
  pose proof (EventCosts_returns_exact _ _ _ DefaultGasRegister_ok Hfit Hne H) as Hexact.
  destruct Hexact as [Hc _]. exact Hc.
Defined.

(** More attributes never cost less: when [EventCosts] returns on a slice
    and on an extension of it, the second value is at least the first; and
    when it panics on a slice it panics on every extension. *)
Theorem EventCosts_monotone g evts more :
  GasRegister_ok g -> slice_fits (evts ++ more) ->
  (forall c c', EventCosts g evts = Ret c -> EventCosts g (evts ++ more) = Ret c' -> c <= c') /\
  (forall p, EventCosts g evts = Panic p ->
             EventCosts g (evts ++ more) = Panic (ErrorOutOfGas "overflow")).
Proof.
  intros Hg Hfit. pose proof (slice_fits_app_l _ _ Hfit) as Hfit0.
  destruct evts as [|l evts].
  - split; [|intros p Hp; discriminate Hp].
    intros c c' [= <-] Hc'. cbn [app] in *. destruct more as [|l more].
    + injection Hc' as <-. lia.
    + rewrite EventCosts_exact in Hc' by (auto; left; discriminate).
      pose proof (exactEventCost_nonneg g (l :: more) Hg).
      destruct (exactEventCost g (l :: more) <? 2 ^ 64); [|discriminate].
      injection Hc' as <-. lia.
  - assert (Hne : l :: evts <> []) by discriminate.
    assert (Hne' : (l :: evts) ++ more <> []) by discriminate.
    rewrite (EventCosts_exact g (l :: evts)) by auto.
    rewrite (EventCosts_exact g ((l :: evts) ++ more)) by auto.
    pose proof (exactEventCost_app g (l :: evts) more Hg) as Hle.
    destruct (Z.ltb_spec (exactEventCost g (l :: evts)) (2 ^ 64));
      destruct (Z.ltb_spec (exactEventCost g ((l :: evts) ++ more)) (2 ^ 64)).
    + split; [|intros p Hp; discriminate Hp]. intros c c' [= <-] [= <-]. exact Hle.
    + split; [intros c c' _ Hc'; discriminate Hc'|intros p Hp; discriminate Hp].
    + lia.
    + split; [intros c c' Hc; discriminate Hc|reflexivity].
Qed.

Lemma EventCosts_monotone_default :
  EventCosts DefaultGasRegister [{| Key := "action"; Value := "transfer" |}] = Ret 10 /\
  EventCosts DefaultGasRegister
    ([{| Key := "action"; Value := "transfer" |}] ++ [{| Key := "amount"; Value := "1" |}])
  = Ret 20 /\ 10 <= 20.
Proof.
  assert (H1 : EventCosts DefaultGasRegister [{| Key := "action"; Value := "transfer" |}]
               = Ret 10) by (vm_compute; reflexivity).
  assert (H2 : EventCosts DefaultGasRegister
                 ([{| Key := "action"; Value := "transfer" |}]
                  ++ [{| Key := "amount"; Value := "1" |}]) = Ret 20)
    by (vm_compute; reflexivity).
  split; [exact H1|]. split; [exact H2|].
  destruct (EventCosts_monotone DefaultGasRegister
              [{| Key := "action"; Value := "transfer" |}]
              [{| Key := "amount"; Value := "1" |}] DefaultGasRegister_ok) as [Hmono _].
  - split; vm_compute; reflexivity.
  - exact (Hmono 10 20 H1 H2).
Defined.

(** VM gas brought to SDK gas and back never grows and loses less than one
    multiplier: [v - gasMultiplier < ToWasmVMGas (FromWasmVMGas v) <= v]. *)
Theorem ToWasmVMGas_FromWasmVMGas g vmGas ledgerGas :
  uint64_ok vmGas -> uint64_ok (gasMultiplier g) ->
  FromWasmVMGas g vmGas = Ret ledgerGas ->
  vmGas - gasMultiplier g < ToWasmVMGas g ledgerGas <= vmGas.
Proof.
  unfold uint64_ok, FromWasmVMGas. intros Hv Hm.
  destruct (Z.eqb_spec (gasMultiplier g) 0) as [|Hnz]; [discriminate|].
  intros [= <-].
  assert (Hpos : 0 < gasMultiplier g) by lia.
  pose proof (Z.mul_div_le vmGas (gasMultiplier g) Hpos).
  pose proof (Z.mul_succ_div_gt vmGas (gasMultiplier g) Hpos).
  assert (0 <= vmGas / gasMultiplier g) by (apply Z.div_pos; lia).
  rewrite ToWasmVMGas_exact; unfold uint64_ok; try nia.
Qed.

Lemma ToWasmVMGas_FromWasmVMGas_default :
  FromWasmVMGas DefaultGasRegister 12345 = Ret 123 /\
  12345 - 100 < ToWasmVMGas DefaultGasRegister 123 <= 12345.
Proof.
  assert (H : FromWasmVMGas DefaultGasRegister 12345 = Ret 123) by (vm_compute; reflexivity).
  assert (Hv : uint64_ok 12345) by (unfold uint64_ok; lia).
  assert (Hm : uint64_ok (gasMultiplier DefaultGasRegister))
    by (exact (gasMultiplier_ok _ DefaultGasRegister_ok)).
  split; [exact H|].
  exact (ToWasmVMGas_FromWasmVMGas DefaultGasRegister 12345 123 Hv Hm H).
Defined.

Lemma wrap64_add_l a b : wrap64 (wrap64 a + b) = wrap64 (a + b).
Proof. unfold wrap64. apply Zplus_mod_idemp_l. Qed.

(** The loop over the events when every [EventCosts] returns: the
    accumulator grows by the sum of the costs, modulo 2^64. *)
Lemma replyEvents_costs g events : forall costs msgLen eventGas,
  Forall2 (fun e c => EventCosts g (Attributes e) = Ret c) events costs ->
  exists msgLen',
    replyEvents g events (msgLen, wrap64 eventGas)
    = Ret (msgLen', wrap64 (eventGas + fold_right Z.add 0 costs)).
Proof.
  induction events as [|e events IH]; intros costs msgLen eventGas Hall;
    inversion Hall as [|? c ? costs' Hc Hall']; subst.
  - exists msgLen. cbn. rewrite Z.add_0_r. reflexivity.
  - cbn [replyEvents replyEvent]. rewrite Hc. cbn [obind].
    rewrite wrap64_add_l.
    destruct (IH costs' (wrap_int (msgLen + len_string (EventType e))) (eventGas + c) Hall')
      as [msgLen' Hrest].
    exists msgLen'. rewrite Hrest. cbn [fold_right]. rewrite Z.add_assoc. reflexivity.
Qed.

(** When every event's [EventCosts] returns, [ReplyCost] returns the sum of
    those costs plus [InstantiateContractCost], computed in [uint64] (so
    modulo 2^64); the message length plays no part. *)
Theorem ReplyCost_sum g pinned reply ok costs :
  ResultOk (Result reply) = Some ok ->
  Forall2 (fun e c => EventCosts g (Attributes e) = Ret c) (Events ok) costs ->
  ReplyCost g pinned reply
  = Ret (wrap64 (fold_right Z.add 0 costs + (if pinned then 0 else instanceCost g))).
Proof.
  intros Hok Hall. unfold ReplyCost. rewrite Hok. cbv zeta.
  destruct (replyEvents_costs g (Events ok) costs
              (wrap_int (len_string (ResultErr (Result reply)) + len_slice (ResponseData ok)))
              0 Hall) as [msgLen' Hloop].
  change (wrap64 0) with 0 in Hloop. rewrite Hloop. cbn [obind].
  rewrite wrap64_add_l. reflexivity.
Qed.

(** An unpinned contract pays [instanceCost] on top of what a pinned one
    pays for the same reply (in [uint64] arithmetic), and [ReplyCost]
    returns for the one exactly when it returns for the other. *)
Theorem ReplyCost_pinned_unpinned g reply c :
  ReplyCost g true reply = Ret c ->
  ReplyCost g false reply = Ret (wrap64 (c + instanceCost g)).
Proof.
  unfold ReplyCost. cbv zeta.
  destruct (match ResultOk (Result reply) with
            | Some ok => _
            | None => _
            end) as [[msgLen eventGas]|p]; cbn [obind]; [|discriminate].
  cbn [InstantiateContractCost]. intros [= <-].
  rewrite Z.add_0_r, wrap64_add_l. reflexivity.
Qed.

Lemma ReplyCost_sum_transfer :
  ReplyCost DefaultGasRegister false transferReply = Ret 40010.
Proof.
  assert (Hall : Forall2 (fun e c => EventCosts DefaultGasRegister (Attributes e) = Ret c)
                   [{| EventType := "transfer";
                       Attributes := [{| Key := "action"; Value := "transfer" |}] |}] [10]).
  { constructor; [vm_compute; reflexivity|constructor]. }
  pose proof (ReplyCost_sum DefaultGasRegister false transferReply _ [10] eq_refl Hall) as H.
  exact H.
Defined.

Lemma ReplyCost_pinned_unpinned_transfer :
  ReplyCost DefaultGasRegister true transferReply = Ret 10 /\
  ReplyCost DefaultGasRegister false transferReply = Ret 40010.
Proof.
  assert (H : ReplyCost DefaultGasRegister true transferReply = Ret 10)
    by (vm_compute; reflexivity).
  split; [exact H|].
  exact (ReplyCost_pinned_unpinned DefaultGasRegister transferReply 10 H).
Defined.

Lemma replyEvents_panics g events : forall acc,
  Exists (fun e => exists p, EventCosts g (Attributes e) = Panic p) events ->
  exists p, replyEvents g events acc = Panic p.
Proof.
  induction events as [|e events IH]; intros [msgLen eventGas] Hex;
    inversion Hex as [? ? [p Hp]|? ? Hex']; subst.
  - exists p. cbn [replyEvents replyEvent]. rewrite Hp. reflexivity.
  - cbn [replyEvents replyEvent].
    destruct (EventCosts g (Attributes e)) as [c|p]; cbn [obind].
    + apply IH. exact Hex'.
    + exists p. reflexivity.
Qed.

(** [ReplyCost] does not survive an event it cannot price: when
    [EventCosts] panics on the attributes of any event of the reply,
    [ReplyCost] panics, pinned or not. *)
Theorem ReplyCost_panics g pinned reply ok :
  ResultOk (Result reply) = Some ok ->
  Exists (fun e => exists p, EventCosts g (Attributes e) = Panic p) (Events ok) ->
  exists p, ReplyCost g pinned reply = Panic p.
Proof.
  intros Hok Hex. unfold ReplyCost. rewrite Hok. cbv zeta.
  destruct (replyEvents_panics g (Events ok)
              (wrap_int (len_string (ResultErr (Result reply)) + len_slice (ResponseData ok)), 0)
              Hex) as [p Hp].
  exists p. rewrite Hp. reflexivity.
Qed.

Lemma ReplyCost_panics_two_attributes :
  exists p, ReplyCost countCostlyRegister true twoAttributeReply = Panic p.
Proof.
  assert (Hex : Exists (fun e => exists p, EventCosts countCostlyRegister (Attributes e) = Panic p)
                  [{| EventType := "wasm";
                      Attributes := [{| Key := ""; Value := "" |};
                                     {| Key := ""; Value := "" |}] |}]).
  { constructor. exists (ErrorOutOfGas "overflow"). vm_compute. reflexivity. }
  exact (ReplyCost_panics countCostlyRegister true twoAttributeReply _ eq_refl Hex).
Defined.

End GasRegisterMore.

Section PortIDMore.
Import golang binary base64 ibc.

(** The packed identifier, as [PortIDForContract] computes it. *)
Lemma PortIDForContract_unfold codeID instanceID :
  PortIDForContract codeID instanceID
  = (portIDPrefix
     ++ EncodeToString (PutUvarint (wrap64 (wrap64 (Z.shiftl codeID 32) + instanceID))))%string.
Proof. reflexivity. Qed.

(** Resolving the port built from any 64-bit payload succeeds. *)
Lemma ContractFromPortID_payload (contractAddress : Z -> Z -> list Z) x :
  uint64_ok x ->
  ContractFromPortID contractAddress (portIDPrefix ++ EncodeToString (PutUvarint x))
  = Ok (contractAddress (Z.shiftr x 32) (Z.land x 4294967295)).
Proof.
  intros Hx. unfold ContractFromPortID. rewrite prefix_append.
  change (string_from (String.length portIDPrefix)
            (portIDPrefix ++ EncodeToString (PutUvarint x)))
    with (EncodeToString (PutUvarint x)).
  cbn [negb]. rewrite DecodeString_EncodeToString by apply PutUvarint_loop_bytes.
  destruct (Uvarint_PutUvarint _ Hx) as [Hu Hn]. rewrite Hu.
  destruct (Z.eqb_spec (len_slice (PutUvarint x)) 0); [lia|]. reflexivity.
Qed.

Lemma uint64_halves x y :
  uint64_ok x -> uint64_ok y ->
  Z.shiftr x 32 = Z.shiftr y 32 -> Z.land x 4294967295 = Z.land y 4294967295 -> x = y.
Proof.
  unfold uint64_ok. intros Hx Hy. rewrite !Z.shiftr_div_pow2, !land_32 by lia.
  change (2 ^ 32) with 4294967296. intros Hhi Hlo.
  rewrite (Z.div_mod x 4294967296), (Z.div_mod y 4294967296) by lia.
  rewrite Hhi, Hlo. reflexivity.
Qed.

(** Two pairs of identifiers get the same port identifier exactly when
    their packed values [codeID<<32 + instanceID], computed in [uint64],
    are equal. *)
Theorem PortIDForContract_eq_iff codeID instanceID codeID' instanceID' :
  PortIDForContract codeID instanceID = PortIDForContract codeID' instanceID' <->
  wrap64 (wrap64 (Z.shiftl codeID 32) + instanceID)
  = wrap64 (wrap64 (Z.shiftl codeID' 32) + instanceID').
Proof.
  rewrite !PortIDForContract_unfold. split.
  - intros Heq.
    pose proof (ContractFromPortID_payload (fun a b => [a; b]) _
                  (wrap64_range (wrap64 (Z.shiftl codeID 32) + instanceID))) as H1.
    pose proof (ContractFromPortID_payload (fun a b => [a; b]) _
                  (wrap64_range (wrap64 (Z.shiftl codeID' 32) + instanceID'))) as H2.
    rewrite Heq, H2 in H1. injection H1 as Hhi Hlo.
    symmetry. apply uint64_halves; auto using wrap64_range.
  - intros ->. reflexivity.
Qed.

(** On identifiers of at most 32 bits the derivation is injective. *)
Theorem PortIDForContract_injective codeID instanceID codeID' instanceID' :
  0 <= codeID <= 2 ^ 32 - 1 -> 0 <= instanceID <= 2 ^ 32 - 1 ->
  0 <= codeID' <= 2 ^ 32 - 1 -> 0 <= instanceID' <= 2 ^ 32 - 1 ->
  PortIDForContract codeID instanceID = PortIDForContract codeID' instanceID' ->
  codeID = codeID' /\ instanceID = instanceID'.
Proof.
  intros Hc Hi Hc' Hi' Heq.
  destruct (packed_contractID codeID instanceID Hc Hi) as (Hp & Hv & Hhi & Hlo).
  destruct (packed_contractID codeID' instanceID' Hc' Hi') as (Hp' & Hv' & Hhi' & Hlo').
  cbv zeta in *. rewrite !PortIDForContract_unfold, Hp, Hp' in Heq.
  pose proof (ContractFromPortID_payload (fun a b => [a; b]) _ Hv) as H1.
  pose proof (ContractFromPortID_payload (fun a b => [a; b]) _ Hv') as H2.
  rewrite Heq, H2 in H1. injection H1 as H32 Hmask.
  rewrite Hhi, Hhi' in H32. rewrite Hlo, Hlo' in Hmask. auto.
Qed.

Lemma PortIDForContract_injective_1_1 :
  PortIDForContract 1 1 = PortIDForContract 1 1 /\ 1 = 1 /\ 1 = 1.
Proof.
  assert (H : 0 <= 1 <= 2 ^ 32 - 1) by lia.
  split; [reflexivity|].
  exact (PortIDForContract_injective 1 1 1 1 H H H H eq_refl).
Defined.

(** Past 32 bits the packing is lossy: an instance identifier raised by
    2^32 gives the port of the next code identifier, so two different
    contracts share one port identifier. *)
Theorem PortIDForContract_aliases codeID instanceID :
  uint64_ok codeID -> uint64_ok (codeID + 1) ->
  uint64_ok instanceID -> uint64_ok (instanceID + 2 ^ 32) ->
  PortIDForContract codeID (instanceID + 2 ^ 32) = PortIDForContract (codeID + 1) instanceID.
Proof.
  intros _ _ _ _. rewrite !PortIDForContract_unfold. do 3 f_equal.
  rewrite !Z.shiftl_mul_pow2 by lia. unfold wrap64.
  rewrite !Zplus_mod_idemp_l. f_equal. lia.
Qed.

Lemma PortIDForContract_aliases_0_1 :
  PortIDForContract 0 (0 + 2 ^ 32) = PortIDForContract (0 + 1) 0.
Proof.
  assert (H0 : uint64_ok 0) by (unfold uint64_ok; lia).
  assert (H1 : uint64_ok (0 + 1)) by (unfold uint64_ok; lia).
  assert (H2 : uint64_ok (0 + 2 ^ 32)) by (unfold uint64_ok; lia).
  exact (PortIDForContract_aliases 0 0 H0 H1 H0 H2).
Defined.

Lemma length_string_of_list_ascii l :
  String.length (string_of_list_ascii l) = List.length l.
Proof. induction l as [|c l IH]; simpl; [reflexivity|]. rewrite IH. reflexivity. Qed.

Lemma length_string_append (s1 s2 : string) :
  String.length (s1 ++ s2) = (String.length s1 + String.length s2)%nat.
Proof. induction s1 as [|c s1 IH]; simpl; [reflexivity|]. rewrite IH. reflexivity. Qed.

(** [Encode] writes four characters for three bytes, rounded up. *)
Lemma length_Encode src :
  (4 * List.length src <= 3 * List.length (Encode src) <= 4 * List.length src + 2)%nat.
Proof.
  induction src as [| b0 | b0 b1 | b0 b1 b2 src IH] using list_ind3;
    cbn [Encode List.length]; cbv zeta; cbn [List.length]; lia.
Qed.

Lemma length_PutUvarint_loop n : forall x,
  (1 <= List.length (PutUvarint_loop n x) <= S n)%nat.
Proof.
  induction n as [|n IH]; intros x; simpl; [lia|].
  destruct (128 <=? x); simpl; [|lia]. specialize (IH (Z.shiftr x 7)). lia.
Qed.

(** Every derived port identifier starts with "wasm" and has between 6 and
    18 characters: the prefix and the unpadded base64 of a varint of one to
    ten bytes. *)
Theorem PortIDForContract_shape codeID instanceID :
  String.prefix portIDPrefix (PortIDForContract codeID instanceID) = true /\
  (6 <= String.length (PortIDForContract codeID instanceID) <= 18)%nat.
Proof.
  rewrite PortIDForContract_unfold. split; [apply prefix_append|].
  rewrite length_string_append. unfold EncodeToString.
  rewrite length_string_of_list_ascii.
  pose proof (length_Encode (PutUvarint (wrap64 (wrap64 (Z.shiftl codeID 32) + instanceID)))).
  pose proof (length_PutUvarint_loop 9 (wrap64 (wrap64 (Z.shiftl codeID 32) + instanceID))).
  unfold PutUvarint in *. change (String.length portIDPrefix) with 4%nat. lia.
Qed.

(** Whatever 64-bit identifiers a port was derived from, resolving it
    succeeds: the contract named is the one of the two halves of the packed
    value. *)
Theorem ContractFromPortID_derived (contractAddress : Z -> Z -> list Z) codeID instanceID :
  ContractFromPortID contractAddress (PortIDForContract codeID instanceID)
  = Ok (contractAddress
          (Z.shiftr (wrap64 (wrap64 (Z.shiftl codeID 32) + instanceID)) 32)
          (Z.land (wrap64 (wrap64 (Z.shiftl codeID 32) + instanceID)) 4294967295)).
Proof.
  rewrite PortIDForContract_unfold. apply ContractFromPortID_payload. apply wrap64_range.
Qed.

End PortIDMore.

Section PortBindingMore.
Import golang ibc.
Context {St Cap : Type}.

(** After [bindIbcPort] has bound and claimed the port of a contract,
    [ensureIbcPort] for that contract succeeds with a single lookup: it does
    not bind again. *)
Theorem ensureIbcPort_after_bindIbcPort (k : Keeper St Cap) (pk : PortKeeper St Cap)
    (ctx ctx1 : sdkContext St) (codeID instanceID : Z) :
  portKeeper k = Some pk ->
  bindIbcPort k ctx (PortIDForContract codeID instanceID) = Ret (None, ctx1) ->
  ensureIbcPort k ctx1 codeID instanceID =
    Ret ((PortIDForContract codeID instanceID, None),
         {| authority := authority ctx1;
            calls := calls ctx1
                     ++ [CallGetCapability (PortPath (PortIDForContract codeID instanceID))] |}).
Proof.
  intros Hpk. unfold bindIbcPort, ensureIbcPort. rewrite Hpk. cbv zeta.
  destruct (BindPort pk (authority ctx) (PortIDForContract codeID instanceID))
    as [[cap st']|p]; [|discriminate].
  unfold Keeper_ClaimCapability. cbn [authority logged].
  destruct (ClaimCapability (scopedKeeper k) st' cap
              (PortPath (PortIDForContract codeID instanceID))) as [st''|e] eqn:Hclaim;
    [|discriminate].
  intros [= <-]. cbn [authority calls logged].
  destruct (claimed_is_held (scopedKeeper k) _ _ _ _ Hclaim) as [cap' Hheld].
  rewrite Hheld. reflexivity.
Qed.

(** The calls [ensureIbcPort] makes with a port keeper, whenever it returns:
    it always returns the derived identifier; either the capability was
    held, and the lookup is its only call and the authority is untouched;
    or the lookup found nothing and it called [BindPort] and
    [ClaimCapability] once each, in that order.  An error can only come
    from the second case. *)
Theorem ensureIbcPort_calls (k : Keeper St Cap) (pk : PortKeeper St Cap)
    (ctx ctx' : sdkContext St) (codeID instanceID : Z) (portID : string)
    (err : option error) :
  portKeeper k = Some pk ->
  ensureIbcPort k ctx codeID instanceID = Ret ((portID, err), ctx') ->
  portID = PortIDForContract codeID instanceID /\
  ((is_Some (GetCapability (scopedKeeper k) (authority ctx) (PortPath portID)) /\
    err = None /\ authority ctx' = authority ctx /\
    calls ctx' = calls ctx ++ [CallGetCapability (PortPath portID)])
   \/
   (GetCapability (scopedKeeper k) (authority ctx) (PortPath portID) = None /\
    calls ctx' = calls ctx ++ [CallGetCapability (PortPath portID);
                               CallBindPort portID;
                               CallClaimCapability (PortPath portID)])).
Proof.
  intros Hpk. unfold ensureIbcPort. rewrite Hpk. cbv zeta.
  destruct (GetCapability (scopedKeeper k) (authority ctx)
              (PortPath (PortIDForContract codeID instanceID))) as [cap|] eqn:Hget.
  - intros [= <- <- <-]. split; [reflexivity|]. left.
    rewrite Hget. cbn [authority calls logged]. auto.
  - unfold bindIbcPort. rewrite Hpk. cbn [authority logged].
    destruct (BindPort pk (authority ctx) (PortIDForContract codeID instanceID))
      as [[cap st']|p]; [|discriminate].
    unfold Keeper_ClaimCapability. cbn [authority logged calls].
    destruct (ClaimCapability (scopedKeeper k) st' cap
                (PortPath (PortIDForContract codeID instanceID))) as [st''|e];
      intros [= <- <- <-]; (split; [reflexivity|]); right;
      (split; [exact Hget|]); unfold logged; cbn [calls]; rewrite <- !app_assoc;
      reflexivity.
Qed.

End PortBindingMore.

Section TableAuthorityMore.
Import golang ibc.

Lemma ensureIbcPort_after_bindIbcPort_on_table :
  ensureIbcPort tableKeeper
    {| authority := {| boundPorts := ["wasmgYCAgBA"%string];
                       held := [("ports/wasmgYCAgBA"%string, 0%nat)] |};
       calls := [CallBindPort "wasmgYCAgBA"; CallClaimCapability "ports/wasmgYCAgBA"] |} 1 1
  = Ret (("wasmgYCAgBA"%string, None),
         {| authority := {| boundPorts := ["wasmgYCAgBA"%string];
                            held := [("ports/wasmgYCAgBA"%string, 0%nat)] |};
            calls := [CallBindPort "wasmgYCAgBA"; CallClaimCapability "ports/wasmgYCAgBA";
                      CallGetCapability "ports/wasmgYCAgBA"] |}).
Proof.
  assert (H : bindIbcPort tableKeeper emptyContext (PortIDForContract 1 1)
              = Ret (None,
                     {| authority := {| boundPorts := ["wasmgYCAgBA"%string];
                                        held := [("ports/wasmgYCAgBA"%string, 0%nat)] |};
                        calls := [CallBindPort "wasmgYCAgBA";
                                  CallClaimCapability "ports/wasmgYCAgBA"] |}))
    by (vm_compute; reflexivity).
  exact (ensureIbcPort_after_bindIbcPort tableKeeper _ emptyContext _ 1 1 eq_refl H).
Defined.

Lemma ensureIbcPort_calls_on_table :
  "wasmgYCAgBA"%string = PortIDForContract 1 1.
Proof.
  assert (H : ensureIbcPort tableKeeper emptyContext 1 1
    = Ret (("wasmgYCAgBA"%string, None),
         {| authority := {| boundPorts := ["wasmgYCAgBA"%string];
                            held := [("ports/wasmgYCAgBA"%string, 0%nat)] |};
            calls := [CallGetCapability "ports/wasmgYCAgBA";
                      CallBindPort "wasmgYCAgBA";
                      CallClaimCapability "ports/wasmgYCAgBA"] |}))
    by (vm_compute; reflexivity).
  destruct (ensureIbcPort_calls tableKeeper _ emptyContext _ 1 1 _ _ eq_refl H) as [Hid _].
  exact Hid.
Defined.

End TableAuthorityMore.

Section CountersMore.
Import golang relay_pingpong.

(** [incrementCounter] and [QueryState]: on a store that holds the count
    [n] under the key (or nothing, with [n = 0]), the count returned is
    [n + 1] (in [uint64]), it is the count stored, which [QueryState] then
    reads, and no other key is touched. *)
Theorem incrementCounter_QueryState (store : Store) (key : string) (n : Z) :
  uint64_ok n ->
  store !! key = Some (Uint64ToBigEndian n) \/ (store !! key = None /\ n = 0) ->
  exists store',
    incrementCounter key store = Ret (wrap64 (n + 1), store') /\
    (store !! key <> None -> QueryState store key = Ret n) /\
    QueryState store' key = Ret (wrap64 (n + 1)) /\
    forall key', key' <> key -> store' !! key' = store !! key'.
Proof.
  intros Hn Hheld.
  pose proof (counter_at_read store key n (conj Hn Hheld)) as Hread.
  eexists. split; [apply incrementCounter_from; exact Hread|].
  split.
  { intros Hsome. unfold QueryState.
    destruct Hheld as [Hget | [Hget _]]; [|congruence].
    rewrite Hget. apply BigEndianToUint64_Uint64ToBigEndian. exact Hn. }
  split; [apply QueryState_insert; apply wrap64_range|].
  intros key' Hne. apply lookup_insert_ne. congruence.
Qed.

Lemma incrementCounter_QueryState_mid_game :
  (exists store',
     incrementCounter lastBallSentKey storeMidGame = Ret (8, store') /\
     QueryState storeMidGame lastBallSentKey = Ret 7 /\
     QueryState store' lastBallSentKey = Ret 8 /\
     store' !! sentBallsCountKey = storeMidGame !! sentBallsCountKey) /\
  (exists store',
     incrementCounter sentBallsCountKey ∅ = Ret (1, store') /\
     QueryState store' sentBallsCountKey = Ret 1).
Proof.
  split.
  - assert (Hn : uint64_ok 7) by (unfold uint64_ok; lia).
    assert (Hheld : storeMidGame !! lastBallSentKey = Some (Uint64ToBigEndian 7)).
    { unfold storeMidGame. rewrite !lookup_insert_ne by discriminate.
      apply lookup_insert_eq. }
    destruct (incrementCounter_QueryState storeMidGame lastBallSentKey 7 Hn
                (or_introl Hheld))
      as (store' & Hinc & Hbefore & Hquery & Hframe).
    exists store'. split; [exact Hinc|]. split.
    + apply Hbefore. rewrite Hheld. discriminate.
    + split; [exact Hquery|]. apply Hframe. discriminate.
  - assert (Hn : uint64_ok 0) by (unfold uint64_ok; lia).
    destruct (incrementCounter_QueryState ∅ sentBallsCountKey 0 Hn
                (or_intror (conj (lookup_empty _) eq_refl)))
      as (store' & Hinc & _ & Hquery & _).
    exists store'. split; [exact Hinc|exact Hquery].
Defined.

Lemma incrementTimes_from n : forall (store : Store) key count,
  uint64_ok count -> readCounter store key = Ret count ->
  exists store',
    incrementTimes n key store = Ret store' /\
    readCounter store' key = Ret (wrap64 (count + Z.of_nat n)).
Proof.
  induction n as [|n IH]; intros store key count Hc Hread.
  - exists store. split; [reflexivity|]. rewrite Z.add_0_r, wrap64_small by exact Hc.
    exact Hread.
  - cbn [incrementTimes]. rewrite (incrementCounter_from _ _ _ Hread). cbn [obind].
    destruct (IH (<[key := Uint64ToBigEndian (wrap64 (count + 1))]> store) key
                 (wrap64 (count + 1)) (wrap64_range _)) as (store' & Hrun & Hread').
    { unfold readCounter. rewrite lookup_insert_eq.
      apply BigEndianToUint64_Uint64ToBigEndian. apply wrap64_range. }
    exists store'. split; [exact Hrun|]. rewrite Hread'. f_equal.
    rewrite wrap64_add_l. f_equal. lia.
Qed.

(** Counting works: after [n] calls of [incrementCounter] on a key that
    held [count], the key holds [count + n] (in [uint64]); in particular a
    key that was never written holds [n]. *)
Theorem incrementTimes_counts (n : nat) (store : Store) (key : string) :
  uint64_slot store key ->
  exists count store',
    readCounter store key = Ret count /\
    incrementTimes n key store = Ret store' /\
    readCounter store' key = Ret (wrap64 (count + Z.of_nat n)) /\
    (store !! key = None -> Z.of_nat n < 2 ^ 64 ->
     readCounter store' key = Ret (Z.of_nat n)).
Proof.
  intros Hslot. destruct (readCounter_slot store key Hslot) as (count & Hc & Hread).
  destruct (incrementTimes_from n store key count Hc Hread) as (store' & Hrun & Hread').
  exists count, store'. split; [exact Hread|]. split; [exact Hrun|].
  split; [exact Hread'|]. intros Hnone Hn.
  unfold readCounter in Hread. rewrite Hnone in Hread. injection Hread as <-.
  rewrite Hread'. f_equal. apply wrap64_small. unfold uint64_ok. lia.
Qed.

Lemma incrementTimes_counts_three :
  exists store',
    incrementTimes 3 confirmedBallsCountKey ∅ = Ret store' /\
    readCounter store' confirmedBallsCountKey = Ret 3.
Proof.
  destruct (incrementTimes_counts 3 ∅ confirmedBallsCountKey (empty_slot _))
    as (count & store' & _ & Hrun & _ & Hfresh).
  exists store'. split; [exact Hrun|].
  apply Hfresh; [apply lookup_empty|]. vm_compute. reflexivity.
Defined.

(** [counterParty] swaps the two players: whenever it returns, applying it
    to its result gives back its argument. *)
Theorem counterParty_involution (Quote : string -> string) s t :
  counterParty Quote s = Ret t -> counterParty Quote t = Ret s.
Proof.
  unfold counterParty.
  destruct (String.eqb_spec s ping) as [->|Hping]; [intros [= <-]; reflexivity|].
  destruct (String.eqb_spec s pong) as [->|Hpong]; [intros [= <-]; reflexivity|].
  discriminate.
Qed.

Lemma counterParty_involution_ping : counterParty asciiQuote pong = Ret ping.
Proof. exact (counterParty_involution asciiQuote ping pong eq_refl). Defined.

End CountersMore.

Section PingPongMore.
Import golang relay_pingpong.
Context `{J : JSON}.
Context (Quote : string -> string).

(** [OnIBCChannelOpen] accepts a channel exactly when its version is the
    player's own name; it never returns an error, and a refusal names both
    strings. *)
Theorem OnIBCChannelOpen_accepts (p : player) (channel : IBCChannel) :
  exists resp,
    OnIBCChannelOpen Quote p channel = (Some resp, 0, None) /\
    (OpenSuccess resp = true <-> Version channel = actor p) /\
    (OpenSuccess resp = false ->
     Reason resp = "expected " +:+ Quote (actor p) +:+ " but got " +:+ Quote (Version channel)).
Proof.
  unfold OnIBCChannelOpen.
  destruct (String.eqb_spec (Version channel) (actor p)) as [Heq|Hne]; cbn [negb];
    eexists; (split; [reflexivity|]); cbn [OpenSuccess Reason].
  - split; [tauto|discriminate].
  - split; [|reflexivity]. split; [discriminate|contradiction].
Qed.

Lemma find_app_channel channelID (l1 l2 : list connectedChannelsModel) :
  List.find (fun v => String.eqb (Channel (Our v)) channelID) (l1 ++ l2)
  = match List.find (fun v => String.eqb (Channel (Our v)) channelID) l1 with
    | Some v => Some v
    | None => List.find (fun v => String.eqb (Channel (Our v)) channelID) l2
    end.
Proof.
  induction l1 as [|v l1 IH]; cbn [app List.find]; [reflexivity|].
  destruct (String.eqb (Channel (Our v)) channelID); [reflexivity|exact IH].
Qed.

(** After [OnIBCChannelConnect], [loadEndpoints] finds the channel.  The
    scan returns the first pair recorded for the local channel: the pair
    just stored when none was recorded before, the older pair otherwise. *)
Theorem loadEndpoints_after_connect (p : player) (channel : IBCChannel) (store : Store)
    (l : list connectedChannelsModel) :
  loadCounterparties store = Ret l ->
  exists store1,
    OnIBCChannelConnect p channel store = Ret ((Some ChannelConnected, 0, None), store1) /\
    loadEndpoints Quote store1 (Channel (Endpoint channel))
    = Ret (default {| Our := Endpoint channel; Their := CounterpartyEndpoint channel |}
             (List.find (fun v => String.eqb (Channel (Our v)) (Channel (Endpoint channel))) l)).
Proof.
  intros Hload.
  destruct (OnIBCChannelConnect_appends p channel store l Hload) as [Hrun Hload1].
  cbv zeta in *. eexists. split; [exact Hrun|].
  unfold loadEndpoints. rewrite Hload1. cbn [obind]. rewrite find_app_channel.
  destruct (List.find _ l) as [v|]; [reflexivity|].
  cbn [List.find Our Channel]. rewrite String.eqb_refl. reflexivity.
Qed.

(** [OnIBCChannelConnect] writes the key "ibc-endpoints" and nothing else,
    and what [loadEndpoints] returns for any other channel is what it
    returned before. *)
Theorem OnIBCChannelConnect_frame (p : player) (channel : IBCChannel) (store : Store)
    (l : list connectedChannelsModel) :
  loadCounterparties store = Ret l ->
  exists store1,
    OnIBCChannelConnect p channel store = Ret ((Some ChannelConnected, 0, None), store1) /\
    (forall key, key <> ibcEndpointsKey -> store1 !! key = store !! key) /\
    (forall channelID, channelID <> Channel (Endpoint channel) ->
       loadEndpoints Quote store1 channelID = loadEndpoints Quote store channelID).
Proof.
  intros Hload.
  destruct (OnIBCChannelConnect_appends p channel store l Hload) as [Hrun Hload1].
  cbv zeta in *. eexists. split; [exact Hrun|]. split.
  - intros key Hne. apply lookup_insert_ne. congruence.
  - intros channelID Hne. unfold loadEndpoints. rewrite Hload1, Hload. cbn [obind].
    rewrite find_app_channel.
    destruct (List.find _ l) as [v|]; [reflexivity|].
    cbn [List.find Our Channel].
    destruct (String.eqb_spec (Channel (Endpoint channel)) channelID); [congruence|].
    reflexivity.
Qed.

(** [loadEndpoints] only returns a pair that is recorded for the channel
    asked for, and stops the test when none is, with a message that names
    the channel as [%q] prints it. *)
Theorem loadEndpoints_sound (store : Store) (channelID : string)
    (l : list connectedChannelsModel) :
  loadCounterparties store = Ret l ->
  (forall v, loadEndpoints Quote store channelID = Ret v ->
             In v l /\ Channel (Our v) = channelID) /\
  (pairsOfChannel channelID l = [] ->
   loadEndpoints Quote store channelID
   = Panic (TestFatal ("no counterparty found for channel " +:+ Quote channelID))).
Proof.
  intros Hload. unfold loadEndpoints. rewrite Hload. cbn [obind]. split.
  - intros v. destruct (List.find _ l) as [v'|] eqn:Hfind; [|discriminate].
    intros [= <-]. apply List.find_some in Hfind as [Hin Heq].
    split; [exact Hin|]. apply String.eqb_eq. exact Heq.
  - intros Hnone. destruct (List.find _ l) as [v|] eqn:Hfind; [|reflexivity].
    apply List.find_some in Hfind as [Hin Heq].
    assert (Hin' : In v (pairsOfChannel channelID l)).
    { unfold pairsOfChannel. apply List.filter_In. split; assumption. }
    rewrite Hnone in Hin'. destruct Hin'.
Qed.


(** A ball above the stored "max-value".  The value carried is the entry
    of the other player in the payload.  On a store that holds [received]
    under "recvBalls" (0 where nothing is stored), the ball is counted
    ("recvBalls" becomes [received + 1]) and recorded as the last ball
    received, the acknowledgement carries the error message, nothing is
    sent, and the two counters of sent balls keep their values. *)
Theorem OnIBCPacketReceive_refuses (p : player) (packet : IBCPacket) (store : Store)
    (ball : hit) (other : string) (received m : Z) :
  (actor p = ping /\ other = pong) \/ (actor p = pong /\ other = ping) ->
  Unmarshal_hit (Data packet) = Ok ball ->
  counter_at store receivedBallsCountKey received ->
  uint64_ok m -> store !! maxValueKey = Some (Uint64ToBigEndian m) ->
  m < default 0 (ball !! other) ->
  exists store',
    OnIBCPacketReceive Quote p packet store
    = Ret ((Some {| ReceiveAcknowledgement :=
                      Marshal_ack
                        (BuildError ball
                           ("max value exceeded: " +:+ pretty m +:+ " got "
                            +:+ pretty (default 0 (ball !! other))));
                    Messages := [] |}, 0, None), store') /\
    store' = <[lastBallReceivedKey := Uint64ToBigEndian (default 0 (ball !! other))]>
               (<[receivedBallsCountKey := Uint64ToBigEndian (wrap64 (received + 1))]> store) /\
    QueryState store' receivedBallsCountKey = Ret (wrap64 (received + 1)) /\
    store' !! lastBallSentKey = store !! lastBallSentKey /\
    store' !! sentBallsCountKey = store !! sentBallsCountKey.
Proof.
  intros Hactor Hdecode Hrecv Hm Hstored Hlt.
  pose proof (counter_at_read _ _ _ Hrecv) as Hread1.
  eexists.
  unfold OnIBCPacketReceive. rewrite Hdecode.
  rewrite (incrementCounter_from _ _ _ Hread1). cbn [obind].
  rewrite (counterParty_actor Quote _ _ Hactor). cbn [obind].
  cbv zeta. rewrite !exceededLimit_insert_ne by discriminate.
  unfold exceededLimit. rewrite Hstored.
  rewrite (BigEndianToUint64_Uint64ToBigEndian m Hm). cbn [obind].
  destruct (Z.ltb_spec m (default 0 (ball !! other))); [|lia].
  split; [reflexivity|]. split; [reflexivity|]. split.
  - unfold QueryState. rewrite lookup_insert_ne by discriminate.
    rewrite lookup_insert_eq. apply BigEndianToUint64_Uint64ToBigEndian. apply wrap64_range.
  - split; rewrite !lookup_insert_ne by discriminate; reflexivity.
Qed.

Lemma incrementCounter_inserts key (store store' : Store) count :
  incrementCounter key store = Ret (count, store') ->
  exists bz, store' = <[key := bz]> store.
Proof.
  unfold incrementCounter. destruct (readCounter store key); cbn [obind]; [|discriminate].
  intros [= _ <-]. eexists. reflexivity.
Qed.

(** Whenever [OnIBCPacketReceive] returns, the only keys it may have
    written are the three counters it maintains and "lastBallReceived": the
    stored limit "max-value", the endpoints and "confBalls" are as they
    were. *)
Theorem OnIBCPacketReceive_frame (p : player) (packet : IBCPacket) (store store' : Store)
    (result : returned IBCPacketReceiveResponse) (key : string) :
  OnIBCPacketReceive Quote p packet store = Ret (result, store') ->
  key <> receivedBallsCountKey -> key <> lastBallReceivedKey ->
  key <> lastBallSentKey -> key <> sentBallsCountKey ->
  store' !! key = store !! key.
Proof.
  intros Hrun H1 H2 H3 H4. unfold OnIBCPacketReceive in Hrun.
  destruct (Unmarshal_hit (Data packet)) as [ball|err]; [|congruence].
  destruct (incrementCounter receivedBallsCountKey store) as [[c1 store1]|] eqn:Hinc1;
    cbn [obind] in Hrun; [|discriminate].
  destruct (incrementCounter_inserts _ _ _ _ Hinc1) as [bz1 ->].
  destruct (counterParty Quote (actor p)) as [other|]; cbn [obind] in Hrun; [|discriminate].
  cbv zeta in Hrun.
  destruct (exceededLimit _ _) as [[m|]|]; cbn [obind] in Hrun; [| |discriminate].
  - injection Hrun as _ <-. rewrite !lookup_insert_ne by congruence. reflexivity.
  - destruct (incrementCounter lastBallSentKey _) as [[c2 store2]|] eqn:Hinc2;
      cbn [obind] in Hrun; [|discriminate].
    destruct (incrementCounter_inserts _ _ _ _ Hinc2) as [bz2 ->].
    destruct (incrementCounter sentBallsCountKey _) as [[c3 store3]|] eqn:Hinc3;
      cbn [obind] in Hrun; [|discriminate].
    destruct (incrementCounter_inserts _ _ _ _ Hinc3) as [bz3 ->].
    injection Hrun as _ <-. rewrite !lookup_insert_ne by congruence. reflexivity.
Qed.

(** Whenever [OnIBCPacketAcknowledgement] returns, it used no gas and wrote
    no key other than "confBalls"; and it returns an error exactly when one
    of the two payloads does not decode, in which case it returns no
    response and leaves the store as it was. *)
Theorem OnIBCPacketAcknowledgement_frame (p : player) (packetAck : IBCAcknowledgement)
    (store store' : Store) (resp : option IBCPacketAcknowledgementResponse)
    (gas : Z) (err : option error) :
  OnIBCPacketAcknowledgement p packetAck store = Ret ((resp, gas, err), store') ->
  gas = 0 /\
  (forall key, key <> confirmedBallsCountKey -> store' !! key = store !! key) /\
  (is_Some err <->
   (exists e, Unmarshal_hit (Data (OriginalPacket packetAck)) = Err e) \/
   (exists e, Unmarshal_ack (Acknowledgement packetAck) = Err e)) /\
  (is_Some err -> resp = None /\ store' = store).
Proof.
  unfold OnIBCPacketAcknowledgement.
  destruct (Unmarshal_hit (Data (OriginalPacket packetAck))) as [sentBall|e1].
  2:{ intros [= <- <- <- <-]. split; [reflexivity|]. split; [reflexivity|].
      split; [|auto]. split; [intros _; left; eexists; reflexivity|intros _; eexists; reflexivity]. }
  destruct (Unmarshal_ack (Acknowledgement packetAck)) as [ack|e2].
  2:{ intros [= <- <- <- <-]. split; [reflexivity|]. split; [reflexivity|].
      split; [|auto]. split; [intros _; right; eexists; reflexivity|intros _; eexists; reflexivity]. }
  cbv zeta.
  destruct (incrementCounter confirmedBallsCountKey store) as [[c store1]|] eqn:Hinc;
    cbn [obind]; [|discriminate].
  destruct (incrementCounter_inserts _ _ _ _ Hinc) as [bz ->].
  intros [= <- <- <- <-]. split; [reflexivity|]. split.
  - intros key Hne. apply lookup_insert_ne. congruence.
  - split.
    + split; [intros [? ?]; discriminate|].
      intros [[e He]|[e He]]; discriminate.
    + intros [? ?]; discriminate.
Qed.

End PingPongMore.

Section PingPongMoreRuns.
Import golang relay_pingpong.

Lemma pong_receives_ping :
  @OnIBCPacketReceive wireJSON asciiQuote pongPlayer pingPacket ∅
  = Ret ((Some {| ReceiveAcknowledgement := [0; 1; 0; 100];
                  Messages := [MsgIBC (SendPacket {| ChannelID := "channel-0";
                                                     SendData := [1; 1];
                                                     TimeoutHeight := 110000 |})] |},
          0, None), storeAfterPing).
Proof. vm_compute. reflexivity. Qed.

Lemma ping_is_acknowledged :
  @OnIBCPacketAcknowledgement wireJSON pingPlayer pingAcknowledged ∅
  = Ret ((Some PacketAcknowledged, 0, None),
         <[confirmedBallsCountKey := Uint64ToBigEndian 1]> ∅).
Proof. vm_compute. reflexivity. Qed.

Lemma loadEndpoints_after_connect_channel0 :
  exists store1,
    @OnIBCChannelConnect wireJSON pingPlayer channel0 ∅
      = Ret ((Some ChannelConnected, 0, None), store1) /\
    @loadEndpoints wireJSON asciiQuote store1 "channel-0" = Ret pair0.
Proof.
  destruct (@loadEndpoints_after_connect wireJSON asciiQuote pingPlayer channel0 ∅ []
              loadCounterparties_empty) as (store1 & Hrun & Hload).
  exists store1. split; [exact Hrun|exact Hload].
Defined.

Lemma OnIBCChannelConnect_frame_channel0 :
  exists store1,
    @OnIBCChannelConnect wireJSON pingPlayer channel0 ∅
      = Ret ((Some ChannelConnected, 0, None), store1) /\
    store1 !! maxValueKey = (∅ : Store) !! maxValueKey /\
    @loadEndpoints wireJSON asciiQuote store1 "channel-7"
    = @loadEndpoints wireJSON asciiQuote ∅ "channel-7".
Proof.
  destruct (@OnIBCChannelConnect_frame wireJSON asciiQuote pingPlayer channel0 ∅ []
              loadCounterparties_empty) as (store1 & Hrun & Hkeys & Hother).
  exists store1. split; [exact Hrun|]. split.
  - apply Hkeys. discriminate.
  - apply Hother. discriminate.
Defined.

Lemma loadEndpoints_sound_unconnected :
  @loadEndpoints wireJSON asciiQuote ∅ "channel-0"
  = Panic (TestFatal ("no counterparty found for channel "
                      +:+ String doubleQuote ("channel-0" +:+ String doubleQuote EmptyString))).
Proof.
  destruct (@loadEndpoints_sound wireJSON asciiQuote ∅ "channel-0" []
              loadCounterparties_empty)
    as [_ Hnone].
  exact (Hnone eq_refl).
Defined.

Lemma storeMidGame_counters :
  counter_at storeMidGame receivedBallsCountKey 4 /\
  counter_at storeMidGame lastBallSentKey 7 /\
  counter_at storeMidGame sentBallsCountKey 2.
Proof.
  unfold counter_at, uint64_ok, storeMidGame.
  repeat split; try lia; left;
    rewrite ?lookup_insert_ne by discriminate; apply lookup_insert_eq.
Qed.

Lemma storeMidGameMax50_received :
  counter_at storeMidGameMax50 receivedBallsCountKey 4.
Proof.
  apply counter_at_insert_ne; [discriminate|]. apply storeMidGame_counters.
Qed.


Lemma OnIBCPacketReceive_refuses_ping :
  exists store' resp,
    @OnIBCPacketReceive wireJSON asciiQuote pongPlayer pingPacket storeMidGameMax50
      = Ret ((Some resp, 0, None), store') /\
    ReceiveAcknowledgement resp
      = @Marshal_ack wireJSON
          {| Error := "max value exceeded: 50 got 100"; Success := None |} /\
    Messages resp = [] /\
    QueryState store' receivedBallsCountKey = Ret 5 /\
    store' !! lastBallSentKey = storeMidGameMax50 !! lastBallSentKey /\
    store' !! sentBallsCountKey = storeMidGameMax50 !! sentBallsCountKey.
Proof.
  assert (Hm : uint64_ok 50) by (unfold uint64_ok; lia).
  assert (Hstored : storeMidGameMax50 !! maxValueKey = Some (Uint64ToBigEndian 50))
    by apply lookup_insert_eq.
  assert (Hlt : 50 < default 0 ((<[ping := 100]> ∅ : hit) !! ping)).
  { rewrite lookup_insert_eq. cbn. lia. }
  destruct (@OnIBCPacketReceive_refuses wireJSON asciiQuote pongPlayer pingPacket
              storeMidGameMax50 (<[ping := 100]> ∅) ping 4 50
              (or_intror (conj eq_refl eq_refl)) eq_refl storeMidGameMax50_received
              Hm Hstored Hlt)
    as (store' & Hrun & _ & Hquery & Hlast & Hsent).
  rewrite lookup_insert_eq in Hrun.
  exists store'. eexists. split; [exact Hrun|]. split; [reflexivity|].
  split; [reflexivity|]. split; [exact Hquery|]. split; [exact Hlast|exact Hsent].
Defined.

Lemma OnIBCPacketReceive_frame_ping :
  storeAfterPing !! maxValueKey = (∅ : Store) !! maxValueKey.
Proof.
  apply (@OnIBCPacketReceive_frame wireJSON asciiQuote pongPlayer pingPacket ∅ storeAfterPing _
           maxValueKey pong_receives_ping); discriminate.
Defined.

Lemma OnIBCPacketAcknowledgement_frame_ping :
  (<[confirmedBallsCountKey := Uint64ToBigEndian 1]> ∅ : Store) !! sentBallsCountKey
  = (∅ : Store) !! sentBallsCountKey.
Proof.
  destruct (@OnIBCPacketAcknowledgement_frame wireJSON pingPlayer pingAcknowledged ∅ _ _ _ _
              ping_is_acknowledged) as (_ & Hkeys & _).
  apply Hkeys. discriminate.
Defined.

End PingPongMoreRuns.

Section Proposals.
Import golang proposal.
Context `{V : Validators}.

(** A proposal that [WasmProposal.ValidateBasic] accepts has a title of at
    least one and at most [MaxTitleLength] bytes that is not all white
    space, and a description of at least one and at most
    [MaxDescriptionLength] bytes. *)
Theorem WasmProposal_accepted (p : WasmProposal) :
  WasmProposal_ValidateBasic p = None ->
  1 <= len_string (Title p) <= MaxTitleLength /\
  TrimSpace (Title p) <> EmptyString /\
  1 <= len_string (Description p) <= MaxDescriptionLength.
Proof.
  unfold WasmProposal_ValidateBasic.
  destruct (Z.eqb_spec (len_string (TrimSpace (Title p))) 0) as [|Htrim]; [discriminate|].
  destruct (Z.ltb_spec MaxTitleLength (len_string (Title p))); [discriminate|].
  destruct (Z.eqb_spec (len_string (Description p)) 0) as [|Hdesc]; [discriminate|].
  destruct (Z.ltb_spec MaxDescriptionLength (len_string (Description p))); [discriminate|].
  intros _. pose proof (TrimSpace_shorter (Title p)) as Hshort.
  unfold len_string in *. split; [lia|]. split; [|lia].
  intros Hempty. rewrite Hempty in Htrim. apply Htrim. reflexivity.
Qed.

(** The check of the embedded [WasmProposal] comes first in every proposal:
    when it fails, each of the five [ValidateBasic] returns its error,
    unwrapped, whatever the other fields hold. *)
Theorem ValidateBasic_embedded_first (err : perror) :
  (forall p, WasmProposal_ValidateBasic (StoreCode_WasmProposal p) = Some err ->
             StoreCodeProposal_ValidateBasic p = Some err) /\
  (forall p, WasmProposal_ValidateBasic (Instantiate_WasmProposal p) = Some err ->
             InstantiateContractProposal_ValidateBasic p = Some err) /\
  (forall p, WasmProposal_ValidateBasic (Migrate_WasmProposal p) = Some err ->
             MigrateContractProposal_ValidateBasic p = Some err) /\
  (forall p, WasmProposal_ValidateBasic (UpdateAdmin_WasmProposal p) = Some err ->
             UpdateAdminContractProposal_ValidateBasic p = Some err) /\
  (forall p, WasmProposal_ValidateBasic (ClearAdmin_WasmProposal p) = Some err ->
             ClearAdminContractProposal_ValidateBasic p = Some err).
Proof.
  repeat split; intros p Hp;
    [unfold StoreCodeProposal_ValidateBasic
    |unfold InstantiateContractProposal_ValidateBasic
    |unfold MigrateContractProposal_ValidateBasic
    |unfold UpdateAdminContractProposal_ValidateBasic
    |unfold ClearAdminContractProposal_ValidateBasic]; rewrite Hp; reflexivity.
Qed.

(** Code identifier 0 is never accepted: an instantiate or migrate proposal
    with [Code = 0] is rejected whatever its other fields hold. *)
Theorem ValidateBasic_rejects_code_zero :
  (forall p, Instantiate_Code p = 0 ->
             InstantiateContractProposal_ValidateBasic p <> None) /\
  (forall p, Migrate_Code p = 0 -> MigrateContractProposal_ValidateBasic p <> None).
Proof.
  split; intros p Hzero.
  - unfold InstantiateContractProposal_ValidateBasic.
    destruct (WasmProposal_ValidateBasic _); [discriminate|].
    destruct (VerifyAddressFormat _); [discriminate|].
    rewrite Hzero. discriminate.
  - unfold MigrateContractProposal_ValidateBasic.
    destruct (WasmProposal_ValidateBasic _); [discriminate|].
    rewrite Hzero. discriminate.
Qed.

(** An instantiate proposal that is accepted has passed every check; the
    admin is optional: its address is verified only when it is not
    empty. *)
Theorem InstantiateContractProposal_accepted (p : InstantiateContractProposal) :
  InstantiateContractProposal_ValidateBasic p = None ->
  WasmProposal_ValidateBasic (Instantiate_WasmProposal p) = None /\
  VerifyAddressFormat (Instantiate_Creator p) = None /\
  Instantiate_Code p <> 0 /\
  validateLabel (Label p) = None /\
  Coins_IsValid (InitFunds p) = true /\
  (Admin p = [] \/ VerifyAddressFormat (Admin p) = None).
Proof.
  unfold InstantiateContractProposal_ValidateBasic.
  destruct (WasmProposal_ValidateBasic _); [discriminate|].
  destruct (VerifyAddressFormat (Instantiate_Creator p)); [discriminate|].
  destruct (Z.eqb_spec (Instantiate_Code p) 0) as [|Hcode]; [discriminate|].
  destruct (validateLabel _); [discriminate|].
  destruct (Coins_IsValid _); cbn [negb]; [|discriminate].
  destruct (Z.eqb_spec (len_slice (Admin p)) 0) as [Hlen|Hlen]; cbn [negb].
  - intros _. repeat split; auto. left.
    unfold len_slice in Hlen. destruct (Admin p); [reflexivity|simpl in Hlen; lia].
  - destruct (VerifyAddressFormat (Admin p)); [discriminate|]. intros _.
    repeat split; auto.
Qed.

End Proposals.

Section ProposalRuns.
Import golang proposal.

Lemma plainProposal_valid : @WasmProposal_ValidateBasic plainValidators plainProposal = None.
Proof. vm_compute. reflexivity. Qed.

Lemma WasmProposal_accepted_plain :
  1 <= len_string (Title plainProposal) <= 140 /\
  1 <= len_string (Description plainProposal) <= 5000.
Proof.
  destruct (@WasmProposal_accepted plainValidators plainProposal plainProposal_valid)
    as (Htitle & _ & Hdesc).
  split; [exact Htitle|exact Hdesc].
Defined.

Lemma InstantiateContractProposal_accepted_plain :
  @VerifyAddressFormat plainValidators
    [1; 2; 3; 4; 5; 6; 7; 8; 9; 10; 11; 12; 13; 14; 15; 16; 17; 18; 19; 20] = None /\
  (1 : Z) <> 0.
Proof.
  destruct (@InstantiateContractProposal_accepted plainValidators
              {| Instantiate_WasmProposal := plainProposal;
                 Instantiate_Creator :=
                   [1; 2; 3; 4; 5; 6; 7; 8; 9; 10; 11; 12; 13; 14; 15; 16; 17; 18; 19; 20];
                 Admin := [];
                 Instantiate_Code := 1;
                 Label := "pinned";
                 InitMsg := [];
                 InitFunds := [] |} ltac:(vm_compute; reflexivity))
    as (_ & Hcreator & Hcode & _).
  split; [exact Hcreator|exact Hcode].
Defined.

End ProposalRuns.

Section Options.
Import golang gas_register options.

(** [WithCosts] cannot change what events inside the free tier cost: it
    sets the per-byte cost but neither the per-attribute cost nor the free
    tier, so on attributes whose bytes are within the free tier [EventCosts]
    behaves after the option as it did before, panics included. *)
Theorem WithCosts_keeps_free_tier_price (human canonical : Z)
    (compile instance multiplier attribute : Z) (k : CostState)
    (evts : list EventAttribute) :
  GasRegister_ok (gasRegister k) ->
  uint64_ok compile -> uint64_ok instance -> uint64_ok multiplier -> uint64_ok attribute ->
  attributeBytes evts <= eventAttributeDataFreeTier (gasRegister k) ->
  EventCosts (gasRegister (WithCosts human canonical compile instance multiplier attribute k))
             evts
  = EventCosts (gasRegister k) evts.
Proof.
  intros Hg Hc Hi Hm Ha Hfree.
  assert (Hg' : GasRegister_ok
                  (gasRegister (WithCosts human canonical compile instance multiplier
                                  attribute k))).
  { destruct Hg. constructor; cbn; assumption. }
  destruct evts as [|l evts]; [reflexivity|].
  rewrite !EventCosts_nonempty by (auto; discriminate). cbv zeta.
  pose proof (eventAttributeDataFreeTier_ok _ Hg) as Hf. unfold int_ok in Hf.
  rewrite sumStoredBytes_exact by lia.
  unfold applyFreeTier.
  cbn [gasRegister WithCosts WithApiCosts eventAttributeDataFreeTier eventPerAttributeCost
       eventAttributeDataCost].
  destruct (Z.leb_spec (attributeBytes (l :: evts))
              (eventAttributeDataFreeTier (gasRegister k))); [|lia].
  change (uint64_of_int 0) with 0. rewrite !Z.mul_0_r. reflexivity.
Qed.

Lemma WithCosts_keeps_free_tier_price_default :
  EventCosts (gasRegister (WithCosts 5 4 3 60000 140 7 defaultCostState))
             [{| Key := "action"; Value := "transfer" |}]
  = EventCosts (gasRegister defaultCostState) [{| Key := "action"; Value := "transfer" |}].
Proof.
  assert (H3 : uint64_ok 3) by (unfold uint64_ok; lia).
  assert (H4 : uint64_ok 60000) by (unfold uint64_ok; lia).
  assert (H5 : uint64_ok 140) by (unfold uint64_ok; lia).
  assert (H6 : uint64_ok 7) by (unfold uint64_ok; lia).
  assert (Hfree : attributeBytes [{| Key := "action"; Value := "transfer" |}]
                  <= eventAttributeDataFreeTier (gasRegister defaultCostState))
    by (vm_compute; discriminate).
  exact (WithCosts_keeps_free_tier_price 5 4 3 60000 140 7 defaultCostState _
           DefaultGasRegister_ok H3 H4 H5 H6 Hfree).
Defined.

End Options.
